(** * YOLO label maker: coordinate codec, label files and navigation

    Shallow embedding of [yolo_training/tools/label_gui.py].

    Conventions of the embedding:
    - Python [int] values are [Z];
    - Python [float] values are rationals [Q], compared with [==]. The
      codec is stated over exact values. Where the rounding of a double
      decides an outcome it is left open: a ['.6f'] field takes a tie rule
      [up] that says which way a value halfway between two multiples of
      [10^-6] is written, and the window passes every float result through
      [fl], of which nothing is assumed. A float read from a label file can
      also be [inf] or [nan];
    - text read from a file is a list of Unicode code points; text that is
      written is an ASCII [string];
    - the labels directory is a finite map from label path to what is found
      there: text, or something that cannot be read as text. Writing a label
      file is taken to succeed;
    - the Tk canvas keeps, for the single rectangle item, the coordinates it
      was last given. *)

From Stdlib Require Import QArith Qround Qabs Lqa ZArith Lia.
From Stdlib Require Import Ascii String DecimalString DecimalN.
From stdpp Require Import base option list sorting strings gmap.

Local Open Scope Z_scope.

(** ** Python built-ins on numbers *)

(** [max(a, b)]: the first argument unless the second is larger. *)
Definition py_max (a b : Q) : Q := if Qlt_le_dec a b then b else a.

(** [min(a, b)]: the first argument unless the second is smaller. *)
Definition py_min (a b : Q) : Q := if Qlt_le_dec b a then b else a.

(** [int(x)] on a float: truncation towards zero. *)
Definition py_int_of_float (x : Q) : Z := Z.quot (Qnum x) (Z.pos (Qden x)).

(** ** The coordinate codec *)

Module Codec.

(** [(x1, y1, x2, y2)] in original-image coordinates. *)
Record rect : Type := Rect { rx1 : Q; ry1 : Q; rx2 : Q; ry2 : Q }.

(** The normalised box [(cx, cy, w, h)] of a label. *)
Record box : Type := Box { bcx : Q; bcy : Q; bw : Q; bh : Q }.

Definition rect_eq (a b : rect) : Prop :=
  (rx1 a == rx1 b /\ ry1 a == ry1 b /\ rx2 a == rx2 b /\ ry2 a == ry2 b)%Q.

Definition box_eq (a b : box) : Prop :=
  (bcx a == bcx b /\ bcy a == bcy b /\ bw a == bw b /\ bh a == bh b)%Q.

(** Lines 65-68 of [yolo_save_label]: clamp to image bounds. *)
Definition clamp (r : rect) (W H : Z) : rect :=
  {| rx1 := py_max 0 (py_min (rx1 r) (inject_Z (W - 1)));
     ry1 := py_max 0 (py_min (ry1 r) (inject_Z (H - 1)));
     rx2 := py_max 1 (py_min (rx2 r) (inject_Z W));
     ry2 := py_max 1 (py_min (ry2 r) (inject_Z H)) |}.

(** Lines 71-74: ensure proper ordering. *)
Definition order (r : rect) : rect :=
  let '(x1, x2) :=
    if Qlt_le_dec (rx2 r) (rx1 r) then (rx2 r, rx1 r) else (rx1 r, rx2 r) in
  let '(y1, y2) :=
    if Qlt_le_dec (ry2 r) (ry1 r) then (ry2 r, ry1 r) else (ry1 r, ry2 r) in
  {| rx1 := x1; ry1 := y1; rx2 := x2; ry2 := y2 |}.

(** Lines 76-85: centre/size, divided by the image size. *)
Definition to_box (r : rect) (W H : Z) : box :=
  let w := (rx2 r - rx1 r)%Q in
  let h := (ry2 r - ry1 r)%Q in
  let cx := (rx1 r + w / 2)%Q in
  let cy := (ry1 r + h / 2)%Q in
  {| bcx := (cx / inject_Z W)%Q;
     bcy := (cy / inject_Z H)%Q;
     bw := (w / inject_Z W)%Q;
     bh := (h / inject_Z H)%Q |}.

(** The arithmetic of [yolo_save_label] (lines 61-85): the values
    [cx_n, cy_n, w_n, h_n] that are then formatted and written. *)
Definition normalize (r : rect) (W H : Z) : box :=
  to_box (order (clamp r W H)) W H.

(** Lines 262-265 of [load_image]: normalised box to original xyxy, on
    exact values. *)
Definition denormalize (b : box) (W H : Z) : rect :=
  {| rx1 := ((bcx b - bw b / 2) * inject_Z W)%Q;
     ry1 := ((bcy b - bh b / 2) * inject_Z H)%Q;
     rx2 := ((bcx b + bw b / 2) * inject_Z W)%Q;
     ry2 := ((bcy b + bh b / 2) * inject_Z H)%Q |}.

(** The x-swapped rectangle [(x2, y1, x1, y2)]. *)
Definition swap_x (r : rect) : rect :=
  {| rx1 := rx2 r; ry1 := ry1 r; rx2 := rx1 r; ry2 := ry2 r |}.

(** Fully inside [[0,W]] x [[0,H]] with positive width and height. *)
Definition inside (r : rect) (W H : Z) : Prop :=
  (0 <= rx1 r /\ rx1 r < rx2 r /\ rx2 r <= inject_Z W /\
   0 <= ry1 r /\ ry1 r < ry2 r /\ ry2 r <= inject_Z H)%Q.

(** Ordered corners within the image. *)
Definition ordered_in_image (r : rect) (W H : Z) : Prop :=
  (0 <= rx1 r /\ rx1 r <= rx2 r /\ rx2 r <= inject_Z W /\
   0 <= ry1 r /\ ry1 r <= ry2 r /\ ry2 r <= inject_Z H)%Q.

(** The clamp of lines 65-68 leaves the rectangle alone. *)
Definition within_clamp (r : rect) (W H : Z) : Prop :=
  (rx1 r <= inject_Z W - 1 /\ 1 <= rx2 r /\
   ry1 r <= inject_Z H - 1 /\ 1 <= ry2 r)%Q.



End Codec.

(** ** Python built-ins on text *)

Module Text.

(** The line feed: what line 89 writes last, and what ends a line read in
    text mode. *)
Definition nl : string := String "010"%char EmptyString.

Definition is_digit (c : ascii) : bool :=
  let n := N_of_ascii c in ((48 <=? n) && (n <=? 57))%N.

(** Text as read from a file opened in text mode: Unicode code points. *)
Abbreviation text := (list N).

(** The text an ASCII string stands for. *)
Fixpoint text_of_string (s : string) : text :=
  match s with
  | EmptyString => []
  | String c s' => N_of_ascii c :: text_of_string s'
  end.

(** The ASCII string a text stands for, if every character is ASCII. *)
Fixpoint string_of_text (t : text) : option string :=
  match t with
  | [] => Some EmptyString
  | c :: t' =>
      if (c <? 128)%N then String (ascii_of_N c) <$> string_of_text t'
      else None
  end.

(** [str.isspace] on one character: TAB, LF, VT, FF, CR, the separators
    FS, GS, RS, US, the space, NEL, the no-break space, and the space
    characters U+1680, U+2000 to U+200A, U+2028, U+2029, U+202F, U+205F
    and U+3000. *)
Definition is_space (c : N) : bool :=
  (((9 <=? c) && (c <=? 13)) || ((28 <=? c) && (c <=? 32)) ||
   (c =? 133) || (c =? 160) || (c =? 5760) ||
   ((8192 <=? c) && (c <=? 8202)) || (c =? 8232) || (c =? 8233) ||
   (c =? 8239) || (c =? 8287) || (c =? 12288))%N.

(** The line ends of a file opened with universal newlines: LF and CR. *)
Definition is_newline (c : N) : bool := ((c =? 10) || (c =? 13))%N.

Definition not_newline (c : N) : bool := negb (is_newline c).

Definition not_space (c : N) : bool := negb (is_space c).

(** [f.readline()] on a file opened in text mode: the text up to the first
    line end, which universal-newline translation returns as LF. *)
Fixpoint readline (s : text) : text :=
  match s with
  | [] => []
  | c :: s' => if is_newline c then text_of_string nl else c :: readline s'
  end.

Fixpoint lstrip (s : text) : text :=
  match s with
  | [] => []
  | c :: s' => if is_space c then lstrip s' else s
  end.

Fixpoint rstrip (s : text) : text :=
  match s with
  | [] => []
  | c :: s' =>
      match rstrip s' with
      | [] => if is_space c then [] else [c]
      | t => c :: t
      end
  end.

(** [s.strip()] *)
Definition strip (s : text) : text := rstrip (lstrip s).

(** [s.split()]: the maximal runs of characters that are not white space. *)
Fixpoint split (s : text) : list text :=
  match s with
  | [] => []
  | c :: s' =>
      if is_space c then split s'
      else match s' with
           | [] => [[c]]
           | c' :: _ =>
               if is_space c' then [c] :: split s'
               else match split s' with
                    | t :: ts => (c :: t) :: ts
                    | [] => [[c]]
                    end
           end
  end.

(** [line] is the first line of [content]: the text before the first line
    end, or all of it when there is none. *)
Definition is_first_line (content line : text) : Prop :=
  forallb not_newline line = true /\
  (content = line \/
   exists c rest, is_newline c = true /\ content = line ++ c :: rest).

(** [str(n)] for an [int]. *)
Definition str_of_int (n : Z) : string := NilZero.string_of_int (Z.to_int n).

(** The nearest integer; when [x] lies halfway between two integers,
    [up] tells whether the larger one is taken. *)
Definition round_nearest (up : bool) (x : Q) : Z :=
  let f := Qfloor x in
  match (2 * (x - inject_Z f) ?= 1)%Q with
  | Lt => f
  | Gt => f + 1
  | Eq => if up then f + 1 else f
  end.

(** The tie rule of a value formatted as it stands (ties to even). *)
Definition half_even (x : Q) : bool :=
  Z.odd (Qfloor (Qabs x * 1000000)).

Definition digit_char (d : Z) : ascii := ascii_of_N (48 + Z.to_N (d mod 10)).

Definition six_digits (n : Z) : string :=
  String (digit_char (n / 100000))
 (String (digit_char (n / 10000))
 (String (digit_char (n / 1000))
 (String (digit_char (n / 100))
 (String (digit_char (n / 10))
 (String (digit_char n) EmptyString))))).

(** [f"{x:.6f}"]: sign, integer digits, a point, six decimals; the value is
    rounded to the nearest multiple of [10^-6]. The code formats the double
    that stands for [x]; when [x] lies halfway between two multiples of
    [10^-6] that double lies on either side, and [up x] tells whether the
    one larger in magnitude is written. *)
Definition format_6f (up : Q -> bool) (x : Q) : string :=
  let n := round_nearest (up x) (Qabs x * 1000000) in
  (if Qlt_le_dec x 0 then "-" else "") +:+
  NilZero.string_of_uint (N.to_uint (Z.to_N (n / 1000000))) +:+ "." +:+
  six_digits (n mod 1000000).

Fixpoint all_chars (P : ascii -> bool) (s : string) : bool :=
  match s with
  | EmptyString => true
  | String c s' => P c && all_chars P s'
  end.

(** The characters a written field is made of. *)
Definition is_field_char (c : ascii) : bool :=
  is_digit c || Ascii.eqb c "-" || Ascii.eqb c ".".

(** A non-empty run of decimal digits. *)
Definition is_digits (s : string) : Prop :=
  s <> EmptyString /\ all_chars is_digit s = true.

(** An integer in decimal: an optional minus sign and digits. *)
Definition is_int_literal (s : string) : Prop :=
  exists sign ds, s = sign +:+ ds /\ (sign = "" \/ sign = "-") /\ is_digits ds.

(** A number with exactly six decimals: an optional minus sign, digits, a
    point and six digits. *)
Definition is_6f (s : string) : Prop :=
  exists sign ip fp,
    s = sign +:+ ip +:+ "." +:+ fp /\ (sign = "" \/ sign = "-") /\
    is_digits ip /\ all_chars is_digit fp = true /\ String.length fp = 6%nat.

(** The value a ['.6f'] field stands for. *)
Definition round_6 (up : Q -> bool) (x : Q) : Q :=
  ((if Qlt_le_dec x 0 then -1 else 1) *
   (inject_Z (round_nearest (up x) (Qabs x * 1000000)) / 1000000))%Q.

(** [Path.stem]: the name up to its last dot, unless that dot is the first
    or the last character. *)
Fixpoint before_last_dot (s : string) : option string :=
  match s with
  | EmptyString => None
  | String c s' =>
      match before_last_dot s' with
      | Some p => Some (String c p)
      | None => if Ascii.eqb c "." then Some EmptyString else None
      end
  end.

Fixpoint ends_with_dot (s : string) : bool :=
  match s with
  | EmptyString => false
  | String c EmptyString => Ascii.eqb c "."
  | String _ s' => ends_with_dot s'
  end.

Definition stem (name : string) : string :=
  match before_last_dot name with
  | Some (String c p) => if ends_with_dot name then name else String c p
  | _ => name
  end.

(** The name matches the glob pattern [*suffix]: the name itself or one of
    its tails is the suffix. *)
Fixpoint ends_with (suffix name : string) : bool :=
  String.eqb suffix name ||
  match name with
  | EmptyString => false
  | String _ rest => ends_with suffix rest
  end.

End Text.

(** ** Label files *)

Module LabelFile.
Import Codec Text.

(** What is found at a path that exists. [Readable content]: the file opens
    and [content] is its text as the text layer decodes it, at least up to
    the end of the first line. [Unreadable]: opening the path or reading its
    first line raises ([IsADirectoryError], [PermissionError],
    [UnicodeDecodeError], ...). *)
Inductive file : Type :=
  | Unreadable
  | Readable (content : text).

(** The labels directory: label path to what is found there. *)
Abbreviation files := (gmap string file).

(** A file holding the given ASCII text. *)
Definition ascii_file (s : string) : file := Readable (text_of_string s).

(** A Python [float]. *)
Inductive pyfloat : Type :=
  | Finite (q : Q)
  | Infinite (negative : bool)
  | NaN.

(** One label as loaded: [(class_id, (cx, cy, w, h))]. *)
Definition label : Type := Z * (pyfloat * pyfloat * pyfloat * pyfloat).

(** The line written by line 89 of [yolo_save_label]. *)
Definition label_line (up : Q -> bool) (class_id : Z) (b : box) : string :=
  str_of_int class_id +:+ " " +:+ format_6f up (bcx b) +:+ " " +:+
  format_6f up (bcy b) +:+ " " +:+ format_6f up (bw b) +:+ " " +:+
  format_6f up (bh b) +:+ nl.

(** [yolo_save_label]: opening with mode ["w"] replaces whatever the file
    held. Directories are not part of the file model, so the [mkdir] of the
    parent leaves it unchanged, and the write is taken to succeed. *)
Definition yolo_save_label (up : Q -> bool) (fs : files) (label_path : string)
    (class_id : Z) (bbox_xyxy : rect) (img_size : Z * Z) : files :=
  let '(W, H) := img_size in
  <[label_path := ascii_file (label_line up class_id (normalize bbox_xyxy W H))]>
    fs.

Section Load.

(** The built-in conversions [int(s)] and [float(s)] of a token; [None]
    stands for the [ValueError] they raise. *)
Variable int_of_str : text -> option Z.
Variable float_of_str : text -> option pyfloat.

(** The body of the [try] block of [yolo_load_label], lines 99-106. *)
Definition parse_label (content : text) : option label :=
  let line := strip (readline content) in
  let parts := split line in
  if decide (length parts ≠ 5%nat) then None
  else
    cid ← hd_error parts ≫= int_of_str;
    floats ← mapM float_of_str (drop 1 parts);
    match floats with
    | [cx; cy; w; h] => Some (cid, (cx, cy, w, h))
    | _ => None
    end.

(** The tokens of the first line of a file. *)
Definition first_line_tokens (content : text) : list text :=
  split (strip (readline content)).

(** Five tokens: one that converts to an integer, then four that convert
    to floats. *)
Definition parses_as_label (tokens : list text) (l : label) : Prop :=
  exists t0 t1 t2 t3 t4,
    tokens = [t0; t1; t2; t3; t4] /\
    int_of_str t0 = Some l.1 /\
    float_of_str t1 = Some l.2.1.1.1 /\ float_of_str t2 = Some l.2.1.1.2 /\
    float_of_str t3 = Some l.2.1.2 /\ float_of_str t4 = Some l.2.2.

(** [yolo_load_label]: [None] when the path does not exist (line 94), when
    the [try] block raises (line 107: the file cannot be opened or read, a
    conversion fails), or when the first line has not five tokens. *)
Definition yolo_load_label (fs : files) (label_path : string) : option label :=
  match fs !! label_path with
  | None => None
  | Some Unreadable => None
  | Some (Readable content) => parse_label content
  end.

End Load.

(** A reader of plain ASCII decimal literals, [[-]digits] and
    [[-]digits.digits], used to run the examples; [int] and [float] accept
    these (and more). *)
Fixpoint digits_value (acc : Z) (s : string) : option Z :=
  match s with
  | EmptyString => Some acc
  | String c s' =>
      if is_digit c
      then digits_value (10 * acc + Z.of_N (N_of_ascii c - 48)) s'
      else None
  end.

(** The number a decimal [uint] denotes, read from the left. *)
Fixpoint uint_value (acc : Z) (u : Decimal.uint) : Z :=
  match u with
  | Decimal.Nil => acc
  | Decimal.D0 u => uint_value (10 * acc) u
  | Decimal.D1 u => uint_value (10 * acc + 1) u
  | Decimal.D2 u => uint_value (10 * acc + 2) u
  | Decimal.D3 u => uint_value (10 * acc + 3) u
  | Decimal.D4 u => uint_value (10 * acc + 4) u
  | Decimal.D5 u => uint_value (10 * acc + 5) u
  | Decimal.D6 u => uint_value (10 * acc + 6) u
  | Decimal.D7 u => uint_value (10 * acc + 7) u
  | Decimal.D8 u => uint_value (10 * acc + 8) u
  | Decimal.D9 u => uint_value (10 * acc + 9) u
  end.

Definition unsigned_int (s : string) : option Z :=
  match s with
  | EmptyString => None
  | _ => digits_value 0 s
  end.

Definition literal_int (s : string) : option Z :=
  match s with
  | String "-" s' => Z.opp <$> unsigned_int s'
  | _ => unsigned_int s
  end.

Fixpoint split_at_dot (s : string) : string * option string :=
  match s with
  | EmptyString => (EmptyString, None)
  | String c s' =>
      if Ascii.eqb c "." then (EmptyString, Some s')
      else let '(a, b) := split_at_dot s' in (String c a, b)
  end.

Definition unsigned_float (s : string) : option Q :=
  match split_at_dot s with
  | (a, None) => inject_Z <$> unsigned_int a
  | (a, Some b) =>
      i ← unsigned_int a;
      f ← unsigned_int b;
      Some (inject_Z i + inject_Z f / inject_Z (10 ^ Z.of_nat (String.length b)))%Q
  end.

Definition literal_float (s : string) : option Q :=
  match s with
  | String "-" s' => Qopp <$> unsigned_float s'
  | _ => unsigned_float s
  end.

(** The readers on the tokens of a file. *)
Definition decimal_int (t : text) : option Z :=
  string_of_text t ≫= literal_int.

Definition decimal_float (t : text) : option pyfloat :=
  Finite <$> (string_of_text t ≫= literal_float).

(** The field has six decimals and reads back as [x] rounded to a
    multiple of [10^-6]. *)
Definition written_as (up : Q -> bool) (f : string) (x : Q) : Prop :=
  is_6f f /\ exists v, literal_float f = Some v /\ (v == round_6 up x)%Q.


(** The record read back from the label file of [b]. *)
Definition read_back (up : Q -> bool) (b : box) : box :=
  Box (round_6 up (bcx b)) (round_6 up (bcy b))
      (round_6 up (bw b)) (round_6 up (bh b)).


End LabelFile.

(** ** The image list *)

Module Images.
Import Text.

(** Line 49. *)
Definition exts : list string := ["*.jpg"; "*.jpeg"; "*.png"; "*.bmp"].

(** [images_dir.glob(pattern)] over the names found in the directory, for
    a pattern of the form [*suffix]; matching is case-sensitive. *)
Definition glob (dir : list string) (pattern : string) : list string :=
  match pattern with
  | String "*" suffix => filter (fun name => ends_with suffix name) dir
  | _ => filter (fun name => String.eqb pattern name) dir
  end.

(** [sorted(paths)]: paths of one directory compare by name. *)
Definition sorted (names : list string) : list string :=
  merge_sort String.le names.

(** [list_images]: the loop extends [files] once per extension. *)
Definition list_images (dir : list string) : list string :=
  foldl (fun files ext => files ++ sorted (glob dir ext)) [] exts.

(** The name matches one of the four patterns. *)
Definition is_image (name : string) : bool :=
  ends_with ".jpg" name || ends_with ".jpeg" name ||
  ends_with ".png" name || ends_with ".bmp" name.

(** Position of the pattern a name matches: jpg, jpeg, png, bmp. *)
Definition group (name : string) : nat :=
  if ends_with ".jpg" name then 0
  else if ends_with ".jpeg" name then 1
  else if ends_with ".png" name then 2
  else if ends_with ".bmp" name then 3
  else 4.

(** Order by extension group first, by name within a group. *)
Definition group_le (a b : string) : Prop :=
  (group a < group b)%nat \/ (group a = group b /\ String.le a b).

End Images.

(** ** The labelling window *)

Module Gui.
Import Codec Text LabelFile.

Definition MAX_CANVAS_W : Z := 1280.
Definition MAX_CANVAS_H : Z := 800.
Definition LABELS_DIR : string :=
  "/home/jarred/git/Alien-Cave-Hunters/yolo_training/dataset/labels/train".

(** What the window takes from outside: the size of each image file, the
    built-in conversions used on label files, the tie rule of ['.6f'], and
    [fl], the double that a float operation returns for an exact result. *)
Record env : Type := Env {
  image_size : string -> Z * Z;
  int_of_str : text -> option Z;
  float_of_str : text -> option pyfloat;
  tie_up : Q -> bool;
  fl : Q -> Q
}.

(** The attributes of [LabelGUI], and the labels directory it writes to.
    The canvas rectangle is kept as the coordinates last given to it. *)
Record state : Type := State {
  class_names : list string;
  images : list string;
  idx : Z;
  orig_img : Z * Z;
  scale_x : Q;
  scale_y : Q;
  offset_x : Z;
  offset_y : Z;
  current_bbox_canvas : option (Z * Z * Z * Z);
  dragging : bool;
  start_xy : Z * Z;
  end_xy : Z * Z;
  selected_class_id : option Z;
  class_vars : list Z;
  disk : files
}.

Definition set_idx (i : Z) (s : state) : state :=
  State (class_names s) (images s) i (orig_img s) (scale_x s) (scale_y s)
    (offset_x s) (offset_y s) (current_bbox_canvas s) (dragging s)
    (start_xy s) (end_xy s) (selected_class_id s) (class_vars s) (disk s).

Definition set_view (size : Z * Z) (scale : Q) (ox oy : Z) (s : state) : state :=
  State (class_names s) (images s) (idx s) size scale scale ox oy
    (current_bbox_canvas s) (dragging s) (start_xy s) (end_xy s)
    (selected_class_id s) (class_vars s) (disk s).

Definition set_bbox (b : option (Z * Z * Z * Z)) (s : state) : state :=
  State (class_names s) (images s) (idx s) (orig_img s) (scale_x s)
    (scale_y s) (offset_x s) (offset_y s) b (dragging s) (start_xy s)
    (end_xy s) (selected_class_id s) (class_vars s) (disk s).

Definition set_drag (d : bool) (p1 p2 : Z * Z) (s : state) : state :=
  State (class_names s) (images s) (idx s) (orig_img s) (scale_x s)
    (scale_y s) (offset_x s) (offset_y s) (current_bbox_canvas s) d p1 p2
    (selected_class_id s) (class_vars s) (disk s).

Definition set_class (c : option Z) (vars : list Z) (s : state) : state :=
  State (class_names s) (images s) (idx s) (orig_img s) (scale_x s)
    (scale_y s) (offset_x s) (offset_y s) (current_bbox_canvas s)
    (dragging s) (start_xy s) (end_xy s) c vars (disk s).

Definition set_disk (fs : files) (s : state) : state :=
  State (class_names s) (images s) (idx s) (orig_img s) (scale_x s)
    (scale_y s) (offset_x s) (offset_y s) (current_bbox_canvas s)
    (dragging s) (start_xy s) (end_xy s) (selected_class_id s)
    (class_vars s) fs.

(** *** Class selection *)

(** [on_class_toggle]: the callback of check box [i]. *)
Definition on_class_toggle (i : nat) (s : state) : state :=
  match class_vars s !! i with
  | None => s
  | Some v =>
      if decide (v = 1)
      then set_class (Some (Z.of_nat i))
             (imap (fun j var => if decide (j ≠ i) then 0 else var)
                (class_vars s)) s
      else set_class None (class_vars s) s
  end.

(** A click on check box [i]: Tk flips its variable between 0 and 1, then
    runs the callback. *)
Definition click_class (i : nat) (s : state) : state :=
  on_class_toggle i
    (set_class (selected_class_id s)
       (alter (fun v => if decide (v = 1) then 0 else 1) i (class_vars s)) s).

(** [set_selected_class] *)
Definition set_selected_class (class_id : option Z) (s : state) : state :=
  set_class class_id
    (imap (fun i _ => if decide (class_id = Some (Z.of_nat i)) then 1 else 0)
       (class_vars s)) s.

(** *** The bounding box *)

(** [draw_or_update_bbox]: the corners are kept within the canvas. *)
Definition draw_or_update_bbox (p1 p2 : Z * Z) (s : state) : state :=
  let '(x1, y1) := p1 in
  let '(x2, y2) := p2 in
  let x1 := Z.max 0 (Z.min x1 MAX_CANVAS_W) in
  let x2 := Z.max 0 (Z.min x2 MAX_CANVAS_W) in
  let y1 := Z.max 0 (Z.min y1 MAX_CANVAS_H) in
  let y2 := Z.max 0 (Z.min y2 MAX_CANVAS_H) in
  set_bbox (Some (x1, y1, x2, y2)) s.

(** [on_press]; an image is always loaded once the window is up. *)
Definition on_press (x y : Z) (s : state) : state :=
  let s := set_drag true (x, y) (x, y) s in
  draw_or_update_bbox (start_xy s) (end_xy s) s.

Definition on_drag (x y : Z) (s : state) : state :=
  if dragging s then
    let s := set_drag (dragging s) (start_xy s) (x, y) s in
    draw_or_update_bbox (start_xy s) (end_xy s) s
  else s.

Definition on_release (x y : Z) (s : state) : state :=
  if dragging s then
    let s := set_drag false (start_xy s) (x, y) s in
    draw_or_update_bbox (start_xy s) (end_xy s) s
  else s.

Definition clear_bbox (s : state) : state := set_bbox None s.

(** *** Loading, navigation and saving *)

(** [label_path_for] *)
Definition label_path_for (img_path : string) : string :=
  LABELS_DIR +:+ "/" +:+ stem img_path +:+ ".txt".

Section WithEnv.
Variable E : env.

(** [load_image]. An index outside the list ends the call after line 229,
    as the [IndexError] of line 230 does; a label with a value that is not
    finite ends it at lines 267-270, where [int] raises, after the canvas
    was cleared. Products of finite values are taken to be finite. *)
Definition load_image (i : Z) (s : state) : state :=
  let i := Z.max 0 (Z.min i (Z.of_nat (length (images s)) - 1)) in
  let s := set_idx i s in
  match images s !! Z.to_nat (idx s) with
  | None => s
  | Some img_path =>
      let '(W, H) := image_size E img_path in
      let scale :=
        py_min (py_min (fl E (inject_Z MAX_CANVAS_W / inject_Z W))
                       (fl E (inject_Z MAX_CANVAS_H / inject_Z H))) 1 in
      let disp_w := py_int_of_float (fl E (inject_Z W * scale)) in
      let disp_h := py_int_of_float (fl E (inject_Z H * scale)) in
      let s := set_bbox None
                 (set_view (W, H) scale ((MAX_CANVAS_W - disp_w) / 2)
                    ((MAX_CANVAS_H - disp_h) / 2) s) in
      match yolo_load_label (int_of_str E) (float_of_str E) (disk s)
              (label_path_for img_path) with
      | None => s
      | Some (cid, (Finite cx, Finite cy, Finite w, Finite h)) =>
          let x1 := fl E (fl E (cx - fl E (w / 2)) * inject_Z W) in
          let y1 := fl E (fl E (cy - fl E (h / 2)) * inject_Z H) in
          let x2 := fl E (fl E (cx + fl E (w / 2)) * inject_Z W) in
          let y2 := fl E (fl E (cy + fl E (h / 2)) * inject_Z H) in
          let c1x := offset_x s + py_int_of_float (fl E (x1 * scale_x s)) in
          let c1y := offset_y s + py_int_of_float (fl E (y1 * scale_y s)) in
          let c2x := offset_x s + py_int_of_float (fl E (x2 * scale_x s)) in
          let c2y := offset_y s + py_int_of_float (fl E (y2 * scale_y s)) in
          set_selected_class (Some cid)
            (draw_or_update_bbox (c1x, c1y) (c2x, c2y) s)
      | Some _ => s
      end
  end.

(** [prev_image] *)
Definition prev_image (s : state) : state :=
  if decide (idx s > 0) then load_image (idx s - 1) s else s.

(** [next_image] *)
Definition next_image (s : state) : state :=
  if decide (idx s < Z.of_nat (length (images s)) - 1)
  then load_image (idx s + 1) s else s.

(** [save_label]; the two warnings leave the state as it is. *)
Definition save_label (s : state) : state :=
  match selected_class_id s, current_bbox_canvas s with
  | None, _ => s
  | Some _, None => s
  | Some class_id, Some (x1c, y1c, x2c, y2c) =>
      let '(x1c, x2c) := (Z.min x1c x2c, Z.max x1c x2c) in
      let '(y1c, y2c) := (Z.min y1c y2c, Z.max y1c y2c) in
      let x1i := fl E (inject_Z (x1c - offset_x s) / scale_x s) in
      let y1i := fl E (inject_Z (y1c - offset_y s) / scale_y s) in
      let x2i := fl E (inject_Z (x2c - offset_x s) / scale_x s) in
      let y2i := fl E (inject_Z (y2c - offset_y s) / scale_y s) in
      let '(W, H) := orig_img s in
      let r := clamp (Rect x1i y1i x2i y2i) W H in
      match images s !! Z.to_nat (idx s) with
      | None => s
      | Some img_path =>
          let s := set_disk
                     (yolo_save_label (tie_up E) (disk s)
                        (label_path_for img_path) class_id r (W, H)) s in
          if decide (idx s < Z.of_nat (length (images s)) - 1)
          then load_image (idx s + 1) s else s
      end
  end.

(** What can happen to the window. *)
Inductive event : Type :=
  | Press (x y : Z)
  | Drag (x y : Z)
  | Release (x y : Z)
  | ClickClass (i : nat)
  | OnClassToggle (i : nat)
  | SetSelectedClass (class_id : option Z)
  | Save
  | Clear
  | Prev
  | Next
  | LoadImage (i : Z).

Definition step (s : state) (e : event) : state :=
  match e with
  | Press x y => on_press x y s
  | Drag x y => on_drag x y s
  | Release x y => on_release x y s
  | ClickClass i => click_class i s
  | OnClassToggle i => on_class_toggle i s
  | SetSelectedClass c => set_selected_class c s
  | Save => save_label s
  | Clear => clear_bbox s
  | Prev => prev_image s
  | Next => next_image s
  | LoadImage i => load_image i s
  end.

Definition run (s : state) (es : list event) : state := foldl step s es.

(** [__init__]: index 0, no class selected, every check box off, then
    [load_image(0)]. Where [load_image] raises no window comes up, so the
    states of a window are among those reached from here. *)
Definition init (names imgs : list string) (fs : files) : state :=
  load_image 0
    (State names imgs 0 (0, 0) 1 1 0 0 None false (0, 0) (0, 0) None
       (replicate (length names) 0) fs).

End WithEnv.

(** The index points into the image list. *)
Definition idx_ok (imgs : list string) (s : state) : Prop :=
  images s = imgs /\ 0 <= idx s <= Z.of_nat (length imgs) - 1.

(** The check boxes that are on. *)
Definition active (s : state) (i : nat) : Prop := class_vars s !! i = Some 1.

Definition at_most_one_active (s : state) : Prop :=
  forall i j, active s i -> active s j -> i = j.

(** The selection is the single active check box, when there is one. *)
Definition selection_is_active (s : state) : Prop :=
  forall c, selected_class_id s = Some c ->
    exists i, c = Z.of_nat i /\ active s i.

(** The selection is [None], the active check box, or an id outside the
    class list with no check box active. *)
Definition selection_consistent (s : state) : Prop :=
  forall c, selected_class_id s = Some c ->
    (exists i, c = Z.of_nat i /\ active s i) \/
    ((c < 0 \/ Z.of_nat (length (class_names s)) <= c) /\
     forall i, ~ active s i).

(** One check box variable per class, mutually exclusive, and in step with
    the selection. *)
Definition class_inv (s : state) : Prop :=
  length (class_vars s) = length (class_names s) /\
  at_most_one_active s /\ selection_consistent s.

(** An environment to run examples in: every image is 1000 x 500, label
    files hold plain decimal literals, and float results are exact. *)
Definition example_env : env :=
  Env (fun _ => (1000, 500)) decimal_int decimal_float half_even (fun x => x).

End Gui.

(** ** The class list *)

Module Classes.

#[local] Set Warnings "-register-all".

(** A document as [yaml.safe_load] returns it. *)
Inductive yaml : Type :=
  | YNull
  | YBool (b : bool)
  | YInt (n : Z)
  | YFloat (x : Q)
  | YStr (s : string)
  | YList (items : list yaml)
  | YMap (pairs : list (yaml * yaml)).

(** How [load_class_names] ends. *)
Inductive outcome : Type :=
  | Names (names : list string)
  | FileNotFoundError
  | AttributeError
  | ValueError.

Definition is_key (key : string) (k : yaml) : bool :=
  match k with
  | YStr s => String.eqb s key
  | _ => false
  end.

(** [d.get(key)] on the [dict] built from the pairs of a mapping, where a
    later pair replaces an earlier one with the same key. *)
Fixpoint dict_get (key : string) (pairs : list (yaml * yaml)) : option yaml :=
  match pairs with
  | [] => None
  | (k, v) :: rest =>
      match dict_get key rest with
      | Some v' => Some v'
      | None => if is_key key k then Some v else None
      end
  end.

(** [all(isinstance(n, str) for n in names)], with the strings. *)
Fixpoint str_items (items : list yaml) : option (list string) :=
  match items with
  | [] => Some []
  | YStr s :: rest => cons s <$> str_items rest
  | _ :: rest => None
  end.

(** [load_class_names]; the argument is the parsed file, [None] when the
    file does not exist. Only a [dict] has a [get] method. *)
Definition load_class_names (doc : option yaml) : outcome :=
  match doc with
  | None => FileNotFoundError
  | Some (YMap pairs) =>
      match dict_get "names" pairs with
      | Some (YList items) =>
          match str_items items with
          | Some names => Names names
          | None => ValueError
          end
      | _ => ValueError
      end
  | Some _ => AttributeError
  end.

End Classes.

(** ** Statements about the window *)

Module Window.
Import Codec Text LabelFile Gui.

(** A canvas rectangle within the canvas. *)
Definition in_canvas (b : Z * Z * Z * Z) : Prop :=
  let '(x1, y1, x2, y2) := b in
  (0 <= x1 <= MAX_CANVAS_W /\ 0 <= x2 <= MAX_CANVAS_W) /\
  (0 <= y1 <= MAX_CANVAS_H /\ 0 <= y2 <= MAX_CANVAS_H).

Definition bbox_in_canvas (s : state) : Prop :=
  forall b, current_bbox_canvas s = Some b -> in_canvas b.

Definition clamp_x (x : Z) : Z := Z.max 0 (Z.min x MAX_CANVAS_W).
Definition clamp_y (y : Z) : Z := Z.max 0 (Z.min y MAX_CANVAS_H).

(** Press, any number of motions, release. *)
Definition gesture (p : Z * Z) (moves : list (Z * Z)) (q : Z * Z) : list event :=
  Press p.1 p.2 :: map (fun m => Drag m.1 m.2) moves ++ [Release q.1 q.2].

(** The scale [load_image] gives an image of size [W] x [H]. *)
Definition fit_scale (E : env) (W H : Z) : Q :=
  py_min (py_min (fl E (inject_Z MAX_CANVAS_W / inject_Z W))
                 (fl E (inject_Z MAX_CANVAS_H / inject_Z H))) 1.

(** Rounding [x] keeps it positive, keeps it at least 1. *)
Definition stays_positive (f : Q -> Q) (x : Q) : Prop :=
  (0 < x -> 0 < f x)%Q.

Definition stays_at_least_1 (f : Q -> Q) (x : Q) : Prop :=
  (1 <= x -> 1 <= f x)%Q.

Definition not_dot (c : ascii) : bool := negb (Ascii.eqb c ".").

(** A value of a label small enough for the arithmetic of [load_image] not
    to overflow. *)
Definition moderate (x : Q) : Prop := (Qabs x <= 1000000)%Q.

(** One of the four values is [inf] or [nan]. *)
Definition some_not_finite (vals : pyfloat * pyfloat * pyfloat * pyfloat) : Prop :=
  forall cx cy w h, vals <> (Finite cx, Finite cy, Finite w, Finite h).

(** The window reads label files with the decimal reader. *)
Definition reads_decimal (E : env) : Prop :=
  int_of_str E = decimal_int /\ float_of_str E = decimal_float.

(** The index [load_image] settles on. *)
Definition clamp_idx (i : Z) (s : state) : Z :=
  Z.max 0 (Z.min i (Z.of_nat (length (images s)) - 1)).

(** The image the index points at. *)
Definition current_image (s : state) : option string :=
  images s !! Z.to_nat (idx s).

End Window.

(** * Properties *)

(** ** Arithmetic helpers *)

Lemma py_max_cases a b :
  (a < b /\ py_max a b = b)%Q \/ (b <= a /\ py_max a b = a)%Q.
Proof. unfold py_max. destruct (Qlt_le_dec a b); auto. Qed.

Lemma py_min_cases a b :
  (b < a /\ py_min a b = b)%Q \/ (a <= b /\ py_min a b = a)%Q.
Proof. unfold py_min. destruct (Qlt_le_dec b a); auto. Qed.

(** Case split on every [py_max]/[py_min] in sight, then linear arithmetic. *)
Ltac split_max a b :=
  let m := fresh "m" in
  destruct (py_max_cases a b) as [[? ?]|[? ?]];
  set (m := py_max a b) in *; clearbody m; subst m.

Ltac split_min a b :=
  let m := fresh "m" in
  destruct (py_min_cases a b) as [[? ?]|[? ?]];
  set (m := py_min a b) in *; clearbody m; subst m.

Ltac minmax :=
  repeat match goal with
  | |- context [py_max ?a ?b] => split_max a b
  | |- context [py_min ?a ?b] => split_min a b
  | _ : context [py_max ?a ?b] |- _ => split_max a b
  | _ : context [py_min ?a ?b] |- _ => split_min a b
  end.

(** Linear arithmetic that also sees through halving. *)
Ltac lra2 := unfold Qdiv in *; change (/ 2)%Q with (1 # 2)%Q in *; lra.

Lemma inject_Z_pos (n : Z) : 0 < n -> (1 <= inject_Z n)%Q.
Proof.
  intros Hn. change 1%Q with (inject_Z 1). rewrite <- Zle_Qle. lia.
Qed.

Lemma inject_Z_pred (n : Z) : (inject_Z (n - 1) == inject_Z n - 1)%Q.
Proof. unfold Z.sub. rewrite inject_Z_plus. reflexivity. Qed.

(** ** Codec: clamping, ordering, normalising *)

Section CodecFacts.
Import Codec.

Variables W H : Z.
Hypothesis W_pos : 0 < W.
Hypothesis H_pos : 0 < H.

Lemma clamp_ranges r :
  (0 <= rx1 (clamp r W H) <= inject_Z W - 1 /\
   1 <= rx2 (clamp r W H) <= inject_Z W /\
   0 <= ry1 (clamp r W H) <= inject_Z H - 1 /\
   1 <= ry2 (clamp r W H) <= inject_Z H)%Q.
Proof using W_pos H_pos.
  pose proof (inject_Z_pos W W_pos). pose proof (inject_Z_pos H H_pos).
  pose proof (inject_Z_pred W). pose proof (inject_Z_pred H).
  unfold clamp; simpl. repeat split; minmax; lra.
Qed.

Lemma order_clamp_in_image r : ordered_in_image (order (clamp r W H)) W H.
Proof using W_pos H_pos.
  generalize (clamp_ranges r). generalize (clamp r W H) as c.
  intros [x1 y1 x2 y2]; simpl. intros (Hx1 & Hx2 & Hy1 & Hy2).
  unfold ordered_in_image, order; simpl.
  destruct (Qlt_le_dec x2 x1), (Qlt_le_dec y2 y1); simpl; lra.
Qed.

Lemma clamp_id r : inside r W H -> within_clamp r W H -> rect_eq (clamp r W H) r.
Proof using W_pos H_pos.
  intros (?&?&?&?&?&?) (?&?&?&?).
  pose proof (inject_Z_pred W). pose proof (inject_Z_pred H).
  unfold rect_eq, clamp; simpl. repeat split; minmax; lra.
Qed.

Lemma order_id r : (rx1 r <= rx2 r)%Q -> (ry1 r <= ry2 r)%Q -> order r = r.
Proof.
  intros Hx Hy. destruct r as [x1 y1 x2 y2]; simpl in *. unfold order; simpl.
  destruct (Qlt_le_dec x2 x1), (Qlt_le_dec y2 y1); try reflexivity; lra.
Qed.

Lemma denormalize_to_box r : rect_eq (denormalize (to_box r W H) W H) r.
Proof using W_pos H_pos.
  pose proof (inject_Z_pos W W_pos). pose proof (inject_Z_pos H H_pos).
  unfold rect_eq, denormalize, to_box; simpl.
  repeat split; field; lra.
Qed.

Lemma to_box_unit r :
  ordered_in_image r W H ->
  (0 <= bcx (to_box r W H) <= 1 /\ 0 <= bcy (to_box r W H) <= 1 /\
   0 <= bw (to_box r W H) <= 1 /\ 0 <= bh (to_box r W H) <= 1)%Q.
Proof using W_pos H_pos.
  intros (?&?&?&?&?&?).
  pose proof (inject_Z_pos W W_pos). pose proof (inject_Z_pos H H_pos).
  unfold to_box; simpl.
  repeat split;
    (apply Qle_shift_div_l; [lra|]) || (apply Qle_shift_div_r; [lra|]); lra2.
Qed.

End CodecFacts.

Section CodecClaims.
Import Codec.

(** The round trip returns the clamped, ordered rectangle. *)
Lemma denormalize_normalize (r : rect) (W H : Z) :
  0 < W -> 0 < H ->
  rect_eq (denormalize (normalize r W H) W H) (order (clamp r W H)).
Proof. intros HW HH. apply denormalize_to_box; assumption. Qed.

(** Before the values are written: for a rectangle fully inside
    [[0,W]] x [[0,H]] with positive width and height, the clamp moves each
    corner by at most 1, and not at all when [x1 <= W-1], [x2 >= 1],
    [y1 <= H-1] and [y2 >= 1]. *)
Lemma roundtrip_within_one_exact_in_clamp (r : rect) (W H : Z) :
  0 < W -> 0 < H -> inside r W H ->
  let r' := denormalize (normalize r W H) W H in
  (Qabs (rx1 r' - rx1 r) <= 1 /\ Qabs (ry1 r' - ry1 r) <= 1 /\
   Qabs (rx2 r' - rx2 r) <= 1 /\ Qabs (ry2 r' - ry2 r) <= 1)%Q /\
  (within_clamp r W H -> rect_eq r' r).
Proof.
  intros HW HH Hin r'.
  pose proof (denormalize_normalize r W H HW HH) as (E1 & E2 & E3 & E4).
  fold r' in E1, E2, E3, E4.
  assert (Hord : order (clamp r W H) = clamp r W H).
  { apply order_id; destruct Hin as (?&?&?&?&?&?);
      pose proof (inject_Z_pred W); pose proof (inject_Z_pred H);
      pose proof (inject_Z_pos W HW); pose proof (inject_Z_pos H HH);
      unfold clamp; simpl; minmax; lra. }
  rewrite Hord in E1, E2, E3, E4. split.
  - destruct Hin as (?&?&?&?&?&?).
    pose proof (inject_Z_pred W); pose proof (inject_Z_pred H).
    rewrite E1, E2, E3, E4. unfold clamp; cbn [rx1 ry1 rx2 ry2].
    repeat split; apply Qabs_case; intros; minmax; lra.
  - intros Hc. destruct (clamp_id W H HW HH r Hin Hc) as (C1 & C2 & C3 & C4).
    unfold rect_eq. rewrite E1, E2, E3, E4. auto.
Qed.

(** C2 (as amended): when both x-coordinates lie in [[1, W-1]], where the
    clamp is the same for both corner roles, [normalize] gives the same
    record for [(x1, y1, x2, y2)] and [(x2, y1, x1, y2)]. *)
Theorem normalize_swap_x_within_margin (r : rect) (W H : Z) :
  (1 <= rx1 r <= inject_Z W - 1)%Q -> (1 <= rx2 r <= inject_Z W - 1)%Q ->
  box_eq (normalize r W H) (normalize (swap_x r) W H).
Proof.
  intros [? ?] [? ?]. pose proof (inject_Z_pred W).
  assert (Hx1 : (rx1 (clamp r W H) == rx1 r)%Q) by (unfold clamp; simpl; minmax; lra).
  assert (Hx2 : (rx2 (clamp r W H) == rx2 r)%Q) by (unfold clamp; simpl; minmax; lra).
  assert (Hs1 : (rx1 (clamp (swap_x r) W H) == rx2 r)%Q)
    by (unfold clamp, swap_x; simpl; minmax; lra).
  assert (Hs2 : (rx2 (clamp (swap_x r) W H) == rx1 r)%Q)
    by (unfold clamp, swap_x; simpl; minmax; lra).
  assert (Hy1 : ry1 (clamp (swap_x r) W H) = ry1 (clamp r W H)) by reflexivity.
  assert (Hy2 : ry2 (clamp (swap_x r) W H) = ry2 (clamp r W H)) by reflexivity.
  revert Hx1 Hx2 Hs1 Hs2 Hy1 Hy2.
  unfold normalize.
  generalize (clamp (swap_x r) W H) as c'. generalize (clamp r W H) as c.
  intros [a1 b1 a2 b2] [a1' b1' a2' b2']; simpl. intros ? ? ? ? -> ->.
  unfold box_eq, to_box, order; simpl.
  destruct (Qlt_le_dec a2 a1), (Qlt_le_dec a2' a1'), (Qlt_le_dec b2 b1);
    simpl; repeat split; try reflexivity;
    apply Qmult_comp; try reflexivity; lra2.
Qed.

(** A rectangle one pixel inside a 10 x 10 image on the left and on the
    right, given in both directions. *)
Lemma normalize_swap_x_within_margin_witness :
  let r := Rect 9 0 1 10 in
  ((1 <= rx1 r <= inject_Z 10 - 1)%Q /\ (1 <= rx2 r <= inject_Z 10 - 1)%Q) /\
  box_eq (normalize r 10 10) (normalize (swap_x r) 10 10).
Proof.
  intros r.
  assert (H1 : (1 <= rx1 r <= inject_Z 10 - 1)%Q)
    by (split; vm_compute; discriminate).
  assert (H2 : (1 <= rx2 r <= inject_Z 10 - 1)%Q)
    by (split; vm_compute; discriminate).
  split; [split; assumption|].
  exact (normalize_swap_x_within_margin r 10 10 H1 H2).
Defined.

(** C2 (as stated) fails: a rectangle spanning the full width of a 10 x 10
    image. Given left to right it is saved with width 1; given right to
    left (x-coordinates swapped) the clamp, which depends on the corner
    role, is applied before the ordering and it is saved with width 4/5. *)
Lemma normalize_swap_x_full_width_differs :
  let r := Rect 0 0 10 10 in
  (bw (normalize r 10 10) == 1)%Q /\
  (bw (normalize (swap_x r) 10 10) == 4 # 5)%Q /\
  ~ box_eq (normalize r 10 10) (normalize (swap_x r) 10 10).
Proof.
  cbv zeta. split; [reflexivity|]. split; [reflexivity|].
  intros (_ & _ & E & _). vm_compute in E. discriminate E.
Qed.

(** Width and height as saved, in terms of the clamped corners. *)
Lemma bw_normalize (r : rect) (W H : Z) :
  bw (normalize r W H) =
  ((if Qlt_le_dec (rx2 (clamp r W H)) (rx1 (clamp r W H))
    then rx1 (clamp r W H) - rx2 (clamp r W H)
    else rx2 (clamp r W H) - rx1 (clamp r W H)) / inject_Z W)%Q.
Proof.
  unfold normalize, to_box, order.
  destruct (Qlt_le_dec (rx2 _) _), (Qlt_le_dec (ry2 _) _); reflexivity.
Qed.

Lemma bh_normalize (r : rect) (W H : Z) :
  bh (normalize r W H) =
  ((if Qlt_le_dec (ry2 (clamp r W H)) (ry1 (clamp r W H))
    then ry1 (clamp r W H) - ry2 (clamp r W H)
    else ry2 (clamp r W H) - ry1 (clamp r W H)) / inject_Z H)%Q.
Proof.
  unfold normalize, to_box, order.
  destruct (Qlt_le_dec (rx2 _) _), (Qlt_le_dec (ry2 _) _); reflexivity.
Qed.

(** C3 (as stated) fails: a zero-size rectangle in the interior of a
    10 x 10 image is saved with width and height zero. *)
Lemma normalize_zero_size_interior :
  let b := normalize (Rect 5 5 5 5) 10 10 in
  (bw b == 0)%Q /\ (bh b == 0)%Q /\ ~ (1 / inject_Z 10 <= bw b)%Q.
Proof.
  cbv zeta. split; [reflexivity|]. split; [reflexivity|].
  intros E. vm_compute in E. apply E. reflexivity.
Qed.

(** C3 (as amended): the saved width and height are never negative, and a
    zero-width (zero-height) rectangle lying on or beyond the left or right
    (top or bottom) image edge is saved with a width (height) of at least
    one pixel-equivalent [1/W] ([1/H]). *)
Theorem normalize_degenerate_at_edges (r : rect) (W H : Z) :
  0 < W -> 0 < H ->
  let b := normalize r W H in
  (0 <= bw b /\ 0 <= bh b)%Q /\
  ((rx1 r == rx2 r)%Q -> (rx1 r <= 0 \/ inject_Z W <= rx1 r)%Q ->
   (1 / inject_Z W <= bw b)%Q) /\
  ((ry1 r == ry2 r)%Q -> (ry1 r <= 0 \/ inject_Z H <= ry1 r)%Q ->
   (1 / inject_Z H <= bh b)%Q).
Proof.
  intros HW HH b.
  pose proof (inject_Z_pos W HW) as HW1. pose proof (inject_Z_pos H HH) as HH1.
  pose proof (inject_Z_pred W). pose proof (inject_Z_pred H).
  split; [|split].
  - destruct (to_box_unit W H HW HH _ (order_clamp_in_image W H HW HH r))
      as (_ & _ & [? _] & [? _]). split; assumption.
  - intros E Hedge. unfold b. rewrite bw_normalize.
    unfold Qdiv. apply Qmult_le_compat_r; [|apply Qinv_le_0_compat; lra].
    unfold clamp; cbn [rx1 rx2].
    destruct (Qlt_le_dec _ _); destruct Hedge; minmax; lra.
  - intros E Hedge. unfold b. rewrite bh_normalize.
    unfold Qdiv. apply Qmult_le_compat_r; [|apply Qinv_le_0_compat; lra].
    unfold clamp; cbn [ry1 ry2].
    destruct (Qlt_le_dec _ _); destruct Hedge; minmax; lra.
Qed.

(** A click on the top-left corner of a 10 x 10 image. *)
Lemma normalize_degenerate_at_edges_witness :
  let r := Rect 0 0 0 0 in
  let b := normalize r 10 10 in
  (0 < 10 /\ 0 < 10 /\ (rx1 r == rx2 r)%Q /\ (rx1 r <= 0)%Q /\
   (ry1 r == ry2 r)%Q /\ (ry1 r <= 0)%Q) /\
  (0 <= bw b /\ 0 <= bh b)%Q /\
  (1 / inject_Z 10 <= bw b)%Q /\ (1 / inject_Z 10 <= bh b)%Q.
Proof.
  assert (Hz : (0 <= 0)%Q) by (vm_compute; congruence).
  destruct (normalize_degenerate_at_edges (Rect 0 0 0 0) 10 10 eq_refl eq_refl)
    as (Hn & Hx & Hy).
  split; [repeat split; assumption || reflexivity|].
  split; [exact Hn|].
  split; [apply Hx | apply Hy]; (reflexivity || (left; exact Hz)).
Defined.





End CodecClaims.

(** ** Text: lines and tokens *)

Section TextFacts.
Import Text.

Lemma split_one (c : N) : split [c] = if is_space c then [] else [[c]].
Proof. reflexivity. Qed.

Lemma split_two (c c' : N) (s : text) :
  split (c :: c' :: s) =
  if is_space c then split (c' :: s)
  else if is_space c' then [c] :: split (c' :: s)
       else match split (c' :: s) with
            | t :: ts => (c :: t) :: ts
            | [] => [[c]]
            end.
Proof. reflexivity. Qed.

Lemma split_all_space (s : text) : forallb is_space s = true -> split s = [].
Proof.
  induction s as [|c s IH]; [reflexivity|].
  cbn [forallb]. intros [Hc Hs]%andb_prop.
  cbn [split]. rewrite Hc. exact (IH Hs).
Qed.

(** A run without white space followed by white space is the first token. *)
Lemma split_field (t : text) (c : N) (rest : text) :
  t <> [] -> forallb not_space t = true -> is_space c = true ->
  split (t ++ c :: rest) = t :: split rest.
Proof.
  intros Hne Ht Hc. induction t as [|a t IH]; [contradiction|].
  cbn [forallb] in Ht. apply andb_prop in Ht as [Ha Ht].
  apply negb_true_iff in Ha. destruct t as [|b t].
  - cbn [app]. rewrite split_two, Ha, Hc. cbn [split]. rewrite Hc. reflexivity.
  - assert (Hb : is_space b = false).
    { cbn [forallb] in Ht. apply andb_prop in Ht as [Hb _].
      apply negb_true_iff in Hb. exact Hb. }
    change ((a :: b :: t) ++ c :: rest) with (a :: b :: (t ++ c :: rest)).
    rewrite split_two, Ha, Hb.
    change (b :: t ++ c :: rest) with ((b :: t) ++ c :: rest).
    rewrite IH by (discriminate || exact Ht). reflexivity.
Qed.

Lemma rstrip_nil (s : text) : rstrip s = [] -> forallb is_space s = true.
Proof.
  induction s as [|c s IH]; [reflexivity|].
  cbn [rstrip forallb]. destruct (rstrip s) as [|d t]; [|discriminate].
  destruct (is_space c); [|discriminate]. intros _. exact (IH eq_refl).
Qed.

Lemma rstrip_head (s : text) (d : N) (t : text) :
  rstrip s = d :: t -> exists s', s = d :: s'.
Proof.
  destruct s as [|c s]; [discriminate|]. cbn [rstrip].
  destruct (rstrip s); [destruct (is_space c)|]; intros [= <- _]; eauto.
Qed.

(** Stripping a line does not change its tokens. *)
Lemma split_rstrip (s : text) : split (rstrip s) = split s.
Proof.
  induction s as [|c s IH]; [reflexivity|].
  cbn [rstrip]. destruct (rstrip s) as [|d t] eqn:Hr.
  - apply rstrip_nil in Hr. pose proof (split_all_space s Hr) as Hs.
    destruct (is_space c) eqn:Hc.
    + cbn [split]. rewrite Hc. symmetry. exact Hs.
    + destruct s as [|c' s']; [reflexivity|].
      cbn [forallb] in Hr. apply andb_prop in Hr as [Hc' _].
      rewrite split_two, Hc, Hc', Hs, split_one, Hc. reflexivity.
  - destruct (rstrip_head s d t Hr) as [s' ->].
    rewrite !split_two, IH. reflexivity.
Qed.

Lemma split_lstrip (s : text) : split (lstrip s) = split s.
Proof.
  induction s as [|c s IH]; [reflexivity|].
  cbn [lstrip]. destruct (is_space c) eqn:Hc; [|reflexivity].
  rewrite IH. cbn [split]. rewrite Hc. reflexivity.
Qed.

Lemma split_strip (s : text) : split (strip s) = split s.
Proof. unfold strip. rewrite split_rstrip. apply split_lstrip. Qed.

Lemma readline_no_newline (s : text) :
  forallb not_newline s = true -> readline s = s.
Proof.
  induction s as [|c s IH]; [reflexivity|].
  cbn [forallb]. intros [Hc Hs]%andb_prop. apply negb_true_iff in Hc.
  cbn [readline]. rewrite Hc, (IH Hs). reflexivity.
Qed.

Lemma readline_first_line (line : text) (c : N) (rest : text) :
  forallb not_newline line = true -> is_newline c = true ->
  readline (line ++ c :: rest) = line ++ [10%N].
Proof.
  intros Hl Hc. induction line as [|a line IH].
  - cbn [app readline]. rewrite Hc. reflexivity.
  - cbn [forallb] in Hl. apply andb_prop in Hl as [Ha Hl].
    apply negb_true_iff in Ha.
    cbn [app readline]. rewrite Ha, (IH Hl). reflexivity.
Qed.

Lemma forallb_lstrip (P : N -> bool) (s : text) :
  forallb P s = true -> forallb P (lstrip s) = true.
Proof.
  induction s as [|c s IH]; [reflexivity|].
  intros Hs. cbn [lstrip]. destruct (is_space c); [|exact Hs].
  cbn [forallb] in Hs. apply andb_prop in Hs as [_ Hs]. exact (IH Hs).
Qed.

Lemma forallb_rstrip (P : N -> bool) (s : text) :
  forallb P s = true -> forallb P (rstrip s) = true.
Proof.
  induction s as [|c s IH]; [reflexivity|].
  cbn [forallb]. intros [Hc Hs]%andb_prop. specialize (IH Hs).
  cbn [rstrip]. destruct (rstrip s) as [|d t].
  - destruct (is_space c); [reflexivity|]. cbn [forallb]. rewrite Hc.
    reflexivity.
  - cbn [forallb] in *. rewrite Hc, IH. reflexivity.
Qed.

Lemma rstrip_snoc_space (s : text) (c : N) :
  is_space c = true -> rstrip (s ++ [c]) = rstrip s.
Proof.
  intros Hc. induction s as [|a s IH].
  - cbn [app rstrip]. rewrite Hc. reflexivity.
  - cbn [app rstrip]. rewrite IH. reflexivity.
Qed.

Lemma split_snoc_space (s : text) (c : N) :
  is_space c = true -> split (s ++ [c]) = split s.
Proof.
  intros Hc. rewrite <- split_rstrip, rstrip_snoc_space by exact Hc.
  apply split_rstrip.
Qed.

Lemma newline_is_space (c : N) : is_newline c = true -> is_space c = true.
Proof.
  unfold is_newline. intros [E|E]%orb_prop; apply N.eqb_eq in E; subst c;
    reflexivity.
Qed.

(** Every text has a first line. *)
Lemma first_line_exists (content : text) :
  exists line, is_first_line content line.
Proof.
  induction content as [|c content (line & Hl & Hc)].
  - exists []. split; [reflexivity | left; reflexivity].
  - destruct (is_newline c) eqn:Hn.
    + exists []. split; [reflexivity|]. right. exists c, content. auto.
    + exists (c :: line). split.
      * cbn [forallb]. unfold not_newline at 1. rewrite Hn. exact Hl.
      * destruct Hc as [->|(d & rest & Hd & ->)]; [left; reflexivity|].
        right. exists d, rest. auto.
Qed.

(** The first line is what [readline] and [strip] leave of a file, as far
    as tokens go. *)
Lemma split_first_line (content line : text) :
  is_first_line content line ->
  split (strip (readline content)) = split line.
Proof.
  intros [Hl [->|(c & rest & Hc & ->)]].
  - rewrite readline_no_newline by exact Hl. apply split_strip.
  - rewrite split_strip, readline_first_line by assumption.
    apply split_snoc_space. reflexivity.
Qed.

Lemma text_of_string_app (a b : string) :
  text_of_string (a +:+ b) = text_of_string a ++ text_of_string b.
Proof.
  induction a as [|c a IH]; [reflexivity|].
  change (String c a +:+ b) with (String c (a +:+ b)).
  cbn [text_of_string app]. rewrite IH. reflexivity.
Qed.

End TextFacts.

(** ** Label files: loading *)

Section LoadClaims.
Import Codec Text LabelFile.

Variable int_of_str : text -> option Z.
Variable float_of_str : text -> option pyfloat.

Lemma parse_label_some (content : text) (l : label) :
  parse_label int_of_str float_of_str content = Some l <->
  parses_as_label int_of_str float_of_str (first_line_tokens content) l.
Proof.
  unfold parse_label, parses_as_label, first_line_tokens.
  generalize (split (strip (readline content))) as parts. intros parts.
  destruct l as [cid [[[cx cy] w] h]]; cbn [fst snd].
  destruct parts as [|t0 [|t1 [|t2 [|t3 [|t4 [|t5 rest]]]]]];
    try (split; [discriminate | intros (?&?&?&?&?&?&_); discriminate]).
  cbn [length drop hd_error mapM mbind option_bind mret option_ret].
  destruct (decide (5%nat ≠ 5%nat)) as [Hne|_]; [contradiction|].
  split.
  - intros Hp. exists t0, t1, t2, t3, t4. split; [reflexivity|].
    destruct (int_of_str t0); [|discriminate].
    destruct (float_of_str t1); [|discriminate].
    destruct (float_of_str t2); [|discriminate].
    destruct (float_of_str t3); [|discriminate].
    destruct (float_of_str t4); [|discriminate].
    cbn in Hp. inversion Hp; subst. auto.
  - intros (u0 & u1 & u2 & u3 & u4 & E & H0 & H1 & H2 & H3 & H4).
    inversion E; subst. rewrite H0, H1, H2, H3, H4. reflexivity.
Qed.

(** What a readable file gives depends on the tokens of its first line. *)
Lemma parse_label_first_line (content line : text) (l : label) :
  is_first_line content line ->
  parse_label int_of_str float_of_str content = Some l <->
  parses_as_label int_of_str float_of_str (split line) l.
Proof.
  intros Hl. rewrite parse_label_some. unfold first_line_tokens.
  rewrite (split_first_line content line Hl). reflexivity.
Qed.

(** C6 (as amended): [yolo_load_label] returns [None] exactly when the
    label file does not exist, or cannot be opened and read as text, or
    its first line (the text before the first LF or CR, whatever follows)
    does not split into five tokens of which the first converts to an
    integer and the others to floats; when the line parses, the class id
    and the four values are returned as converted, whatever they are. *)
Theorem yolo_load_label_none_iff (fs : files) (label_path : string) :
  (yolo_load_label int_of_str float_of_str fs label_path = None <->
   fs !! label_path = None \/ fs !! label_path = Some Unreadable \/
   exists content line,
     fs !! label_path = Some (Readable content) /\
     is_first_line content line /\
     forall l, ~ parses_as_label int_of_str float_of_str (split line) l) /\
  (forall content line l,
     fs !! label_path = Some (Readable content) ->
     is_first_line content line ->
     parses_as_label int_of_str float_of_str (split line) l ->
     yolo_load_label int_of_str float_of_str fs label_path = Some l).
Proof.
  unfold yolo_load_label. split; [split|].
  - destruct (fs !! label_path) as [[|content]|]; [auto | | auto].
    intros Hp. right. right.
    destruct (first_line_exists content) as [line Hl].
    exists content, line. split; [reflexivity|]. split; [exact Hl|].
    intros l Hp'. apply (parse_label_first_line content line l Hl) in Hp'.
    congruence.
  - intros [E|[E|(content & line & E & Hl & Hn)]]; rewrite E;
      [reflexivity | reflexivity |].
    destruct (parse_label _ _ content) as [l|] eqn:Hp; [|reflexivity].
    apply (parse_label_first_line content line l Hl) in Hp.
    destruct (Hn l Hp).
  - intros content line l E Hl Hp. rewrite E.
    apply (parse_label_first_line content line l Hl), Hp.
Qed.

End LoadClaims.

(** A well-formed line whose values lie outside [[0,1]], with no-break
    spaces between the tokens and a second line after it, is returned as it
    is; an unreadable file, a short line and a missing file give no
    label. *)
Lemma yolo_load_label_none_iff_witness :
  let sp := [160%N] in
  let line := Text.text_of_string "3" ++ sp ++ Text.text_of_string "7.5" ++ sp ++
              Text.text_of_string "0.5" ++ sp ++ Text.text_of_string "2.0" ++
              sp ++ Text.text_of_string "0.25" in
  let content := line ++ [13%N; 10%N] ++ Text.text_of_string "x y" in
  let fs : LabelFile.files :=
    {[ "a.txt" := LabelFile.Readable content;
       "b.txt" := LabelFile.ascii_file "1 0.5 0.5";
       "d.txt" := LabelFile.Unreadable ]} in
  let load := LabelFile.yolo_load_label LabelFile.decimal_int
                LabelFile.decimal_float fs in
  Text.is_first_line content line /\
  load "a.txt" =
    Some (3, (LabelFile.Finite (75 # 10), LabelFile.Finite (5 # 10),
              LabelFile.Finite (20 # 10), LabelFile.Finite (25 # 100))) /\
  load "b.txt" = None /\ load "c.txt" = None /\ load "d.txt" = None.
Proof.
  intros sp line content fs load.
  assert (Hl : Text.is_first_line content line).
  { split; [reflexivity|]. right. eexists _, _. split; [|reflexivity].
    reflexivity. }
  split; [exact Hl|]. split; [|split; [|split]].
  - apply (proj2 (yolo_load_label_none_iff LabelFile.decimal_int
                    LabelFile.decimal_float fs "a.txt") content line).
    + reflexivity.
    + exact Hl.
    + eexists _, _, _, _, _. split; [reflexivity|].
      repeat split; reflexivity.
  - apply (proj1 (yolo_load_label_none_iff LabelFile.decimal_int
                    LabelFile.decimal_float fs "b.txt")).
    right. right. exists (Text.text_of_string "1 0.5 0.5"), (Text.text_of_string "1 0.5 0.5").
    split; [reflexivity|]. split; [split; [reflexivity | left; reflexivity]|].
    intros l (?&?&?&?&?&E&_). vm_compute in E. discriminate E.
  - apply (proj1 (yolo_load_label_none_iff LabelFile.decimal_int
                    LabelFile.decimal_float fs "c.txt")).
    left. reflexivity.
  - apply (proj1 (yolo_load_label_none_iff LabelFile.decimal_int
                    LabelFile.decimal_float fs "d.txt")).
    right. left. reflexivity.
Defined.

(** C6 (as stated) fails: a label path that exists but cannot be read as
    text (a directory, bytes that do not decode) gives no label, although
    the file exists and no line of it has a wrong token count or a token
    that fails to convert. *)
Lemma yolo_load_label_unreadable :
  let fs : LabelFile.files := {[ "a.txt" := LabelFile.Unreadable ]} in
  LabelFile.yolo_load_label LabelFile.decimal_int LabelFile.decimal_float
    fs "a.txt" = None /\
  ~ (fs !! "a.txt" = None \/
     exists content,
       fs !! "a.txt" = Some (LabelFile.Readable content) /\
       forall l, ~ LabelFile.parses_as_label LabelFile.decimal_int
                     LabelFile.decimal_float
                     (LabelFile.first_line_tokens content) l).
Proof.
  intros fs. split; [reflexivity|].
  intros [E|(content & E & _)]; vm_compute in E; discriminate E.
Qed.

(** ** Label files: saving *)

Section SaveClaims.
Import Codec Text LabelFile.

Lemma app_nil (b : string) : "" +:+ b = b.
Proof. reflexivity. Qed.

Lemma app_cons (c : ascii) (a b : string) :
  String c a +:+ b = String c (a +:+ b).
Proof. reflexivity. Qed.

Lemma all_chars_app P (a b : string) :
  all_chars P (a +:+ b) = all_chars P a && all_chars P b.
Proof.
  induction a as [|c a IH]; [reflexivity|].
  rewrite app_cons. cbn [all_chars]. rewrite IH. apply andb_assoc.
Qed.

Lemma all_chars_weaken (P Q : ascii -> bool) (s : string) :
  (forall c, P c = true -> Q c = true) ->
  all_chars P s = true -> all_chars Q s = true.
Proof.
  intros HPQ. induction s as [|c s IH]; cbn; [reflexivity|].
  intros [Hc Hs]%andb_prop. rewrite (HPQ _ Hc), (IH Hs). reflexivity.
Qed.

Lemma field_char_not_space (c : ascii) :
  is_field_char c = true ->
  is_space (N_of_ascii c) = false /\ is_newline (N_of_ascii c) = false /\
  (N_of_ascii c <? 128)%N = true.
Proof.
  destruct c as [[|] [|] [|] [|] [|] [|] [|] [|]]; vm_compute;
    intros; repeat split; congruence.
Qed.

(** A written field, as text: no white space, no line end, and it reads
    back as the same string. *)
Lemma field_text (f : string) :
  all_chars is_field_char f = true ->
  forallb not_space (text_of_string f) = true /\
  forallb not_newline (text_of_string f) = true /\
  string_of_text (text_of_string f) = Some f.
Proof.
  induction f as [|c f IH]; [repeat split; reflexivity|].
  cbn [all_chars]. intros [Hc Hf]%andb_prop.
  destruct (field_char_not_space c Hc) as (Hs & Hn & Ha).
  destruct (IH Hf) as (IH1 & IH2 & IH3).
  cbn [text_of_string forallb string_of_text]. unfold not_space, not_newline.
  rewrite Hs, Hn, Ha, IH3. cbn. rewrite ascii_N_embedding.
  fold not_space not_newline. rewrite IH1, IH2. repeat split; reflexivity.
Qed.

Lemma string_of_uint_digits (u : Decimal.uint) :
  all_chars is_digit (NilEmpty.string_of_uint u) = true.
Proof. induction u; cbn; auto. Qed.

Lemma string_of_uint_is_digits (u : Decimal.uint) :
  is_digits (NilZero.string_of_uint u).
Proof.
  split.
  - destruct u; discriminate.
  - destruct u; try reflexivity; apply (string_of_uint_digits (_ u)) ||
      (cbn; apply string_of_uint_digits).
Qed.

Lemma str_of_int_literal (n : Z) : is_int_literal (str_of_int n).
Proof.
  unfold str_of_int, NilZero.string_of_int.
  destruct (Z.to_int n) as [u|u].
  - exists "", (NilZero.string_of_uint u). repeat split; auto;
      apply string_of_uint_is_digits.
  - exists "-", (NilZero.string_of_uint u). repeat split; auto;
      apply string_of_uint_is_digits.
Qed.

Lemma digit_char_is_digit (d : Z) : is_digit (digit_char d) = true.
Proof.
  unfold is_digit, digit_char.
  pose proof (Z.mod_pos_bound d 10 eq_refl) as Hd.
  rewrite N_ascii_embedding by lia.
  apply andb_true_intro; split; apply N.leb_le; lia.
Qed.

Lemma six_digits_shape (n : Z) :
  all_chars is_digit (six_digits n) = true /\
  String.length (six_digits n) = 6%nat.
Proof.
  unfold six_digits; cbn [all_chars String.length].
  rewrite !digit_char_is_digit. split; reflexivity.
Qed.

Lemma format_6f_shape (up : Q -> bool) (x : Q) : is_6f (format_6f up x).
Proof.
  unfold format_6f.
  set (n := round_nearest _ _).
  exists (if Qlt_le_dec x 0 then "-" else ""),
    (NilZero.string_of_uint (N.to_uint (Z.to_N (n / 1000000)))),
    (six_digits (n mod 1000000)).
  destruct (six_digits_shape (n mod 1000000)) as [Hd Hl].
  split; [reflexivity|]. split; [destruct (Qlt_le_dec x 0); auto|].
  split; [apply string_of_uint_is_digits|]. split; assumption.
Qed.

Lemma is_digits_field (s : string) :
  is_digits s -> all_chars is_field_char s = true.
Proof.
  intros [_ Hd]. apply (all_chars_weaken is_digit); [|exact Hd].
  intros c Hc. unfold is_field_char. rewrite Hc. reflexivity.
Qed.

Lemma sign_field (sign : string) :
  sign = "" \/ sign = "-" -> all_chars is_field_char sign = true.
Proof. intros [->| ->]; reflexivity. Qed.

Lemma int_literal_field (s : string) :
  is_int_literal s -> s <> "" /\ all_chars is_field_char s = true.
Proof.
  intros (sign & ds & -> & Hs & Hd). split.
  - destruct Hd as [Hne _]. destruct Hs as [->| ->]; [exact Hne|discriminate].
  - rewrite all_chars_app, (sign_field _ Hs), (is_digits_field _ Hd).
    reflexivity.
Qed.

Lemma is_6f_field (s : string) :
  is_6f s -> s <> "" /\ all_chars is_field_char s = true.
Proof.
  intros (sign & ip & fp & -> & Hs & Hi & Hf & _). split.
  - destruct Hi as [Hne _]. destruct Hs as [->| ->]; [|discriminate].
    destruct ip; [contradiction|discriminate].
  - rewrite !all_chars_app, (sign_field _ Hs), (is_digits_field _ Hi).
    cbn. apply (all_chars_weaken is_digit); [|exact Hf].
    intros c Hc. unfold is_field_char. rewrite Hc. reflexivity.
Qed.

Lemma app_assoc' (a b c : string) : (a +:+ b) +:+ c = a +:+ b +:+ c.
Proof.
  induction a as [|x a IH]; [reflexivity|].
  rewrite !app_cons, IH. reflexivity.
Qed.

(** *** Reading back what was written *)

Lemma digits_value_uint (u : Decimal.uint) (acc : Z) :
  digits_value acc (NilEmpty.string_of_uint u) = Some (uint_value acc u).
Proof.
  revert acc. induction u; intros acc; cbn [NilEmpty.string_of_uint uint_value];
    [reflexivity|..];
    (cbn [digits_value];
     match goal with |- context [is_digit ?c] =>
       change (is_digit c) with true; cbv iota
     end;
     rewrite <- IHu; f_equal; vm_compute (Z.of_N _); lia).
Qed.

Lemma uint_value_pos (u : Decimal.uint) (p : positive) :
  uint_value (Z.pos p) u = Z.pos (Pos.of_uint_acc u p).
Proof.
  revert p. induction u; intros p; cbn [uint_value Pos.of_uint_acc];
    [reflexivity|..]; rewrite <- IHu; f_equal; lia.
Qed.

Lemma uint_value_zero (u : Decimal.uint) :
  uint_value 0 u = Z.of_N (Pos.of_uint u).
Proof.
  induction u; cbn [uint_value Pos.of_uint]; [reflexivity| exact IHu |..];
    apply (uint_value_pos u).
Qed.

Lemma unsigned_int_print (n : N) :
  unsigned_int (NilZero.string_of_uint (N.to_uint n)) = Some (Z.of_N n).
Proof.
  rewrite <- (DecimalN.Unsigned.of_to n) at 2. unfold N.of_uint.
  rewrite <- uint_value_zero.
  destruct (N.to_uint n) as [|u|u|u|u|u|u|u|u|u|u] eqn:Hu;
    [reflexivity|..]; cbn [NilZero.string_of_uint];
    rewrite <- digits_value_uint; reflexivity.
Qed.

Lemma digit_char_value (d : Z) :
  Z.of_N (N_of_ascii (digit_char d) - 48) = d mod 10.
Proof.
  unfold digit_char. pose proof (Z.mod_pos_bound d 10 eq_refl).
  rewrite N_ascii_embedding by lia. lia.
Qed.

Lemma unsigned_int_six_digits (f : Z) :
  0 <= f < 1000000 -> unsigned_int (six_digits f) = Some f.
Proof.
  intros Hf. unfold unsigned_int, six_digits. cbn [digits_value].
  rewrite !digit_char_is_digit, !digit_char_value. f_equal.
  Z.div_mod_to_equations. lia.
Qed.

Lemma split_at_dot_digits (ip fp : string) :
  all_chars is_digit ip = true ->
  split_at_dot (ip +:+ "." +:+ fp) = (ip, Some fp).
Proof.
  induction ip as [|c ip IH]; [reflexivity|].
  cbn [all_chars]. intros [Hc Hi]%andb_prop.
  rewrite app_cons. cbn [split_at_dot]. rewrite (IH Hi).
  destruct (Ascii.eqb c ".") eqn:E; [|reflexivity].
  apply Ascii.eqb_eq in E. subst c. discriminate Hc.
Qed.

Lemma unsigned_float_print (n : Z) :
  0 <= n ->
  unsigned_float
    (NilZero.string_of_uint (N.to_uint (Z.to_N (n / 1000000))) +:+ "." +:+
     six_digits (n mod 1000000))
  = Some (inject_Z (n / 1000000) +
          inject_Z (n mod 1000000) / inject_Z 1000000)%Q.
Proof.
  intros Hn. unfold unsigned_float.
  rewrite split_at_dot_digits by apply string_of_uint_is_digits.
  rewrite unsigned_int_print. cbn [mbind option_bind].
  rewrite unsigned_int_six_digits by (apply Z.mod_pos_bound; lia).
  cbn [mbind option_bind]. rewrite Z2N.id by (apply Z.div_pos; lia).
  reflexivity.
Qed.

Lemma digit_not_minus (c : ascii) : is_digit c = true -> c <> "-"%char.
Proof. intros Hc ->. discriminate Hc. Qed.

Lemma literal_float_unsigned (c : ascii) (s : string) :
  c <> "-"%char -> literal_float (String c s) = unsigned_float (String c s).
Proof.
  intros Hc. unfold literal_float.
  destruct c as [[|] [|] [|] [|] [|] [|] [|] [|]];
    try reflexivity; contradiction.
Qed.

Lemma literal_int_unsigned (c : ascii) (s : string) :
  c <> "-"%char -> literal_int (String c s) = unsigned_int (String c s).
Proof.
  intros Hc. unfold literal_int.
  destruct c as [[|] [|] [|] [|] [|] [|] [|] [|]];
    try reflexivity; contradiction.
Qed.

Lemma print_starts_with_digit (n : N) :
  exists c s, NilZero.string_of_uint (N.to_uint n) = String c s /\
              c <> "-"%char.
Proof.
  destruct (string_of_uint_is_digits (N.to_uint n)) as [Hne Hd].
  destruct (NilZero.string_of_uint (N.to_uint n)) as [|c s]; [contradiction|].
  exists c, s. split; [reflexivity|].
  cbn [all_chars] in Hd. apply andb_prop in Hd as [Hc _].
  apply digit_not_minus, Hc.
Qed.

(** [int] reads back what [str] wrote. *)
Lemma literal_int_str_of_int (n : Z) : literal_int (str_of_int n) = Some n.
Proof.
  unfold str_of_int. destruct n as [|p|p]; cbn [Z.to_int NilZero.string_of_int].
  - reflexivity.
  - change (Pos.to_uint p) with (N.to_uint (N.pos p)).
    destruct (print_starts_with_digit (N.pos p)) as (c & s & E & Hc).
    rewrite E, literal_int_unsigned, <- E by exact Hc.
    apply unsigned_int_print.
  - change (Pos.to_uint p) with (N.to_uint (N.pos p)).
    change (literal_int (String "-" ?s)) with (Z.opp <$> unsigned_int s).
    rewrite unsigned_int_print. reflexivity.
Qed.

Lemma round_nearest_near (up : bool) (y : Q) :
  (0 <= y)%Q ->
  0 <= round_nearest up y /\
  (Qabs (inject_Z (round_nearest up y) - y) <= 1 # 2)%Q.
Proof.
  intros Hy. unfold round_nearest.
  pose proof (Qfloor_le y) as Hlo. pose proof (Qlt_floor y) as Hhi.
  assert (Hf : 0 <= Qfloor y).
  { change 0 with (Qfloor 0). apply Qfloor_resp_le, Hy. }
  rewrite inject_Z_plus in Hhi. set (f := Qfloor y) in *.
  assert (H1 : (inject_Z 1 == 1)%Q) by reflexivity.
  destruct (2 * (y - inject_Z f) ?= 1)%Q eqn:C.
  - apply Qeq_alt in C.
    destruct up; (split; [lia|]); rewrite ?inject_Z_plus;
      apply Qabs_case; intros; lra.
  - apply Qlt_alt in C. split; [lia|]. apply Qabs_case; intros; lra.
  - apply Qgt_alt in C. split; [lia|]. rewrite inject_Z_plus.
    apply Qabs_case; intros; lra.
Qed.

(** [float] reads back the value rounded to six decimals. *)
Lemma literal_float_format_6f (up : Q -> bool) (x : Q) :
  exists v, literal_float (format_6f up x) = Some v /\ (v == round_6 up x)%Q.
Proof.
  unfold format_6f, round_6.
  assert (Hax : (0 <= Qabs x * 1000000)%Q).
  { apply Qmult_le_0_compat; [apply Qabs_nonneg | discriminate]. }
  destruct (round_nearest_near (up x) _ Hax) as [Hn _].
  set (n := round_nearest (up x) (Qabs x * 1000000)) in *.
  assert (Hval : (inject_Z (n / 1000000) +
                  inject_Z (n mod 1000000) / inject_Z 1000000
                  == inject_Z n / 1000000)%Q).
  { rewrite (Z.div_mod n 1000000) at 3 by discriminate.
    rewrite inject_Z_plus, inject_Z_mult.
    change (inject_Z 1000000) with 1000000%Q. field. }
  destruct (Qlt_le_dec x 0).
  - eexists. split.
    + change ("-" +:+ ?s) with (String "-" s).
      change (literal_float (String "-" ?s)) with (Qopp <$> unsigned_float s).
      rewrite (unsigned_float_print n Hn). reflexivity.
    + rewrite Hval. ring.
  - eexists. split.
    + rewrite app_nil.
      destruct (print_starts_with_digit (Z.to_N (n / 1000000)))
        as (c & s & E & Hc).
      rewrite E, app_cons, literal_float_unsigned, <- app_cons, <- E by exact Hc.
      apply (unsigned_float_print n Hn).
    + rewrite Hval. ring.
Qed.

Lemma round_6_near (up : Q -> bool) (x : Q) :
  (Qabs (round_6 up x - x) <= 1 # 2000000)%Q.
Proof.
  unfold round_6.
  assert (Hax : (0 <= Qabs x * 1000000)%Q).
  { apply Qmult_le_0_compat; [apply Qabs_nonneg | discriminate]. }
  destruct (round_nearest_near (up x) _ Hax) as [_ Hn].
  set (n := round_nearest (up x) (Qabs x * 1000000)) in *.
  change (inject_Z n / 1000000)%Q with (inject_Z n * (1 # 1000000))%Q.
  assert (Hd : (Qabs (inject_Z n * (1 # 1000000) - Qabs x) <= 1 # 2000000)%Q).
  { revert Hn. generalize (inject_Z n) (Qabs x). intros a b.
    do 2 (apply Qabs_case; intros); lra. }
  revert Hd. generalize (inject_Z n * (1 # 1000000))%Q. intros a.
  destruct (Qlt_le_dec x 0).
  - rewrite (Qabs_neg x) by lra. do 2 (apply Qabs_case; intros); lra.
  - rewrite (Qabs_pos x) by lra. do 2 (apply Qabs_case; intros); lra.
Qed.

(** The written line is one line, and its tokens are the five fields. *)
Lemma label_line_tokens (f0 f1 f2 f3 f4 : string) :
  Forall (fun f => f <> "" /\ all_chars is_field_char f = true)
    [f0; f1; f2; f3; f4] ->
  let body := f0 +:+ " " +:+ f1 +:+ " " +:+ f2 +:+ " " +:+ f3 +:+ " " +:+ f4 in
  let line := text_of_string (body +:+ String "010" "") in
  forallb not_newline (text_of_string body) = true /\
  readline line = line /\
  split line = text_of_string <$> [f0; f1; f2; f3; f4].
Proof.
  intros Hf body line.
  apply Forall_cons in Hf as [[N0 A0] Hf]. apply Forall_cons in Hf as [[N1 A1] Hf].
  apply Forall_cons in Hf as [[N2 A2] Hf]. apply Forall_cons in Hf as [[N3 A3] Hf].
  apply Forall_cons in Hf as [[N4 A4] _].
  destruct (field_text f0 A0) as (S0 & L0 & _).
  destruct (field_text f1 A1) as (S1 & L1 & _).
  destruct (field_text f2 A2) as (S2 & L2 & _).
  destruct (field_text f3 A3) as (S3 & L3 & _).
  destruct (field_text f4 A4) as (S4 & L4 & _).
  assert (Hne : forall f, f <> "" -> text_of_string f <> [])
    by (intros [|c f] Hn; [contradiction | discriminate]).
  assert (Hbody : forallb not_newline (text_of_string body) = true).
  { unfold body. rewrite !text_of_string_app, !forallb_app, L0, L1, L2, L3, L4.
    reflexivity. }
  split; [exact Hbody|]. unfold line. rewrite text_of_string_app. split.
  - change (text_of_string (String "010" "")) with [10%N].
    rewrite (readline_first_line _ 10%N []) by (exact Hbody || reflexivity).
    reflexivity.
  - unfold body. rewrite !text_of_string_app, <- !app_assoc.
    change (text_of_string " ") with [32%N].
    change (text_of_string (String "010" "")) with [10%N].
    cbn [app]. rewrite !split_field by (auto || reflexivity). reflexivity.
Qed.

Lemma format_6f_written (up : Q -> bool) (x : Q) :
  written_as up (format_6f up x) x.
Proof. split; [apply format_6f_shape | apply literal_float_format_6f]. Qed.


(** The five fields of a written line. *)
Lemma label_line_fields (up : Q -> bool) (class_id : Z) (b : box) :
  Forall (fun f => f <> "" /\ all_chars is_field_char f = true)
    [str_of_int class_id; format_6f up (bcx b); format_6f up (bcy b);
     format_6f up (bw b); format_6f up (bh b)].
Proof.
  repeat apply Forall_cons_2; try apply Forall_nil_2;
    (apply int_literal_field, str_of_int_literal) ||
    (apply is_6f_field, format_6f_shape).
Qed.

(** The written line is the five fields, single spaces between them, and
    a line feed. *)
Lemma label_line_body (up : Q -> bool) (class_id : Z) (b : box) :
  label_line up class_id b =
  (str_of_int class_id +:+ " " +:+ format_6f up (bcx b) +:+ " " +:+
   format_6f up (bcy b) +:+ " " +:+ format_6f up (bw b) +:+ " " +:+
   format_6f up (bh b)) +:+ String "010" "".
Proof. unfold label_line, nl. rewrite !app_assoc'. reflexivity. Qed.


(** The decimal readers on a written field. *)
Lemma decimal_int_field (f : string) :
  all_chars is_field_char f = true ->
  decimal_int (text_of_string f) = literal_int f.
Proof.
  intros Hf. unfold decimal_int.
  destruct (field_text f Hf) as (_ & _ & ->). reflexivity.
Qed.

Lemma decimal_float_field (f : string) :
  all_chars is_field_char f = true ->
  decimal_float (text_of_string f) = Finite <$> literal_float f.
Proof.
  intros Hf. unfold decimal_float.
  destruct (field_text f Hf) as (_ & _ & ->). reflexivity.
Qed.

(** What is saved is what is loaded, up to the six decimals. *)
Lemma yolo_load_after_save (up : Q -> bool) (fs : files) (label_path : string)
    (class_id : Z) (r : rect) (W H : Z) :
  let b := normalize r W H in
  exists cx cy w h,
    yolo_load_label decimal_int decimal_float
      (yolo_save_label up fs label_path class_id r (W, H)) label_path
    = Some (class_id, (Finite cx, Finite cy, Finite w, Finite h)) /\
    (cx == round_6 up (bcx b) /\ cy == round_6 up (bcy b) /\
     w == round_6 up (bw b) /\ h == round_6 up (bh b))%Q.
Proof.
  intros b.
  destruct (format_6f_written up (bcx b)) as [S1 (cx & E1 & V1)].
  destruct (format_6f_written up (bcy b)) as [S2 (cy & E2 & V2)].
  destruct (format_6f_written up (bw b)) as [S3 (w & E3 & V3)].
  destruct (format_6f_written up (bh b)) as [S4 (h & E4 & V4)].
  exists cx, cy, w, h. split; [|auto].
  unfold yolo_load_label, yolo_save_label. rewrite lookup_insert_eq.
  unfold ascii_file. apply parse_label_some.
  unfold first_line_tokens. fold b. rewrite label_line_body.
  pose proof (label_line_fields up class_id b) as Hf.
  destruct (label_line_tokens _ _ _ _ _ Hf) as (_ & Hline & Htok).
  rewrite Hline, split_strip, Htok.
  apply Forall_cons in Hf as [[_ A0] Hf]. apply Forall_cons in Hf as [[_ A1] Hf].
  apply Forall_cons in Hf as [[_ A2] Hf]. apply Forall_cons in Hf as [[_ A3] Hf].
  apply Forall_cons in Hf as [[_ A4] _].
  eexists _, _, _, _, _. split; [reflexivity|]. cbn [fst snd].
  rewrite (decimal_int_field _ A0), (decimal_float_field _ A1),
    (decimal_float_field _ A2), (decimal_float_field _ A3),
    (decimal_float_field _ A4), E1, E2, E3, E4.
  repeat split. apply literal_int_str_of_int.
Qed.

(** Values in the unit interval are written as values in the unit
    interval. *)
Lemma round_6_unit (up : Q -> bool) (x : Q) :
  (0 <= x <= 1)%Q -> (0 <= round_6 up x <= 1)%Q.
Proof.
  intros [H0 H1]. unfold round_6. generalize (up x) as u. intros u.
  destruct (Qlt_le_dec x 0) as [Hneg|_]; [lra|].
  pose proof (Qabs_pos x H0) as Hab.
  assert (Ha : (0 <= Qabs x <= 1)%Q) by lra.
  revert Ha. generalize (Qabs x). clear. intros x [H0 H1].
  assert (Hy : (0 <= x * 1000000)%Q) by lra.
  destruct (round_nearest_near u _ Hy) as [Hn _].
  assert (Hle : round_nearest u (x * 1000000) <= 1000000).
  { unfold round_nearest.
    assert (Hf : Qfloor (x * 1000000) <= 1000000).
    { apply Z.le_trans with (Qfloor 1000000);
        [apply Qfloor_resp_le; lra | vm_compute; discriminate]. }
    pose proof (Qfloor_le (x * 1000000)) as Hlo.
    destruct (Z.eq_dec (Qfloor (x * 1000000)) 1000000) as [E|E].
    - rewrite E in *. change (inject_Z 1000000) with 1000000%Q in *.
      destruct (2 * (x * 1000000 - 1000000) ?= 1)%Q eqn:C; [| lia |].
      + apply Qeq_alt in C. lra.
      + apply Qgt_alt in C. lra.
    - destruct (_ ?= _)%Q; [destruct u|..]; lia. }
  set (n := round_nearest u (x * 1000000)) in *.
  change (inject_Z n / 1000000)%Q with (inject_Z n * (1 # 1000000))%Q.
  assert (H0n : (inject_Z 0 <= inject_Z n)%Q) by (rewrite <- Zle_Qle; exact Hn).
  assert (Hn1 : (inject_Z n <= inject_Z 1000000)%Q)
    by (rewrite <- Zle_Qle; exact Hle).
  change (inject_Z 0) with 0%Q in H0n.
  change (inject_Z 1000000) with 1000000%Q in Hn1. lra.
Qed.

(** Reading the six-decimal values back moves each recovered corner by at
    most [0.75e-6] of the image size. *)
Lemma denormalize_rounded_near (up : Q -> bool) (b : box) (W H : Z) :
  0 < W -> 0 < H ->
  let r := denormalize b W H in
  let r' := denormalize (read_back up b) W H in
  (Qabs (rx1 r' - rx1 r) <= (3 # 4000000) * inject_Z W /\
   Qabs (ry1 r' - ry1 r) <= (3 # 4000000) * inject_Z H /\
   Qabs (rx2 r' - rx2 r) <= (3 # 4000000) * inject_Z W /\
   Qabs (ry2 r' - ry2 r) <= (3 # 4000000) * inject_Z H)%Q.
Proof.
  intros HW HH r r'.
  pose proof (inject_Z_pos W HW) as HW1. pose proof (inject_Z_pos H HH) as HH1.
  assert (Hpair : forall d e S : Q,
            (1 <= S -> Qabs d <= 1 # 2000000 -> Qabs e <= 1 # 2000000 ->
             Qabs ((d - e * (1 # 2)) * S) <= (3 # 4000000) * S /\
             Qabs ((d + e * (1 # 2)) * S) <= (3 # 4000000) * S)%Q).
  { intros d e S HS Hd He. rewrite !Qabs_Qmult, (Qabs_pos S) by lra.
    split; (apply Qmult_le_compat_r; [|lra]); revert Hd He;
      do 3 (apply Qabs_case; intros ?); intros; lra. }
  destruct (Hpair (round_6 up (bcx b) - bcx b)%Q (round_6 up (bw b) - bw b)%Q
              (inject_Z W) HW1 (round_6_near _ _) (round_6_near _ _)) as [X1 X2].
  destruct (Hpair (round_6 up (bcy b) - bcy b)%Q (round_6 up (bh b) - bh b)%Q
              (inject_Z H) HH1 (round_6_near _ _) (round_6_near _ _)) as [Y1 Y2].
  assert (Hle : forall a c d : Q, (a == c -> Qabs c <= d -> Qabs a <= d)%Q)
    by (intros a c d ->; auto).
  unfold r, r', read_back, denormalize; cbn [rx1 ry1 rx2 ry2 bcx bcy bw bh].
  repeat split.
  - eapply Hle; [|exact X1]. field.
  - eapply Hle; [|exact Y1]. field.
  - eapply Hle; [|exact X2]. field.
  - eapply Hle; [|exact Y2]. field.
Qed.

End SaveClaims.


(** ** Through the label file: what is drawn is what was saved *)

Section ThroughFile.
Import Codec Text LabelFile.

(** The rectangle recovered from the label file lies within [0.75e-6] of
    the image size of the clamped and ordered rectangle, and the values
    read back lie in the unit interval. *)
Lemma loaded_rect_near (up : Q -> bool) (fs : files) (label_path : string)
    (class_id : Z) (r : rect) (W H : Z) :
  0 < W -> 0 < H ->
  exists cx cy w h,
    yolo_load_label decimal_int decimal_float
      (yolo_save_label up fs label_path class_id r (W, H)) label_path
    = Some (class_id, (Finite cx, Finite cy, Finite w, Finite h)) /\
    (0 <= cx <= 1 /\ 0 <= cy <= 1 /\ 0 <= w <= 1 /\ 0 <= h <= 1)%Q /\
    let r' := denormalize (Box cx cy w h) W H in
    let c := order (clamp r W H) in
    (Qabs (rx1 r' - rx1 c) <= (3 # 4000000) * inject_Z W /\
     Qabs (ry1 r' - ry1 c) <= (3 # 4000000) * inject_Z H /\
     Qabs (rx2 r' - rx2 c) <= (3 # 4000000) * inject_Z W /\
     Qabs (ry2 r' - ry2 c) <= (3 # 4000000) * inject_Z H)%Q.
Proof.
  intros HW HH.
  destruct (yolo_load_after_save up fs label_path class_id r W H)
    as (cx & cy & w & h & Hload & V1 & V2 & V3 & V4).
  destruct (to_box_unit W H HW HH _ (order_clamp_in_image W H HW HH r))
    as (U1 & U2 & U3 & U4).
  change (to_box (order (clamp r W H)) W H) with (normalize r W H)
    in U1, U2, U3, U4.
  exists cx, cy, w, h. split; [exact Hload|]. split.
  - rewrite V1, V2, V3, V4.
    pose proof (round_6_unit up _ U1). pose proof (round_6_unit up _ U2).
    pose proof (round_6_unit up _ U3). pose proof (round_6_unit up _ U4). tauto.
  - pose proof (denormalize_rounded_near up (normalize r W H) W H HW HH)
      as (D1 & D2 & D3 & D4).
    destruct (denormalize_normalize r W H HW HH) as (E1 & E2 & E3 & E4).
    unfold read_back, denormalize in D1, D2, D3, D4.
    cbn [rx1 ry1 rx2 ry2 bcx bcy bw bh] in D1, D2, D3, D4.
    unfold denormalize in E1, E2, E3, E4.
    cbn [rx1 ry1 rx2 ry2] in E1, E2, E3, E4.
    unfold denormalize; cbn [rx1 ry1 rx2 ry2 bcx bcy bw bh].
    rewrite V1, V2, V3, V4, <- E1, <- E2, <- E3, <- E4. tauto.
Qed.

(** C1 (as amended): for a rectangle fully inside [[0,W]] x [[0,H]] with
    positive width and height, the rectangle recovered from the label file
    that was saved for it differs from it by at most [1 + W/10^6] in x and
    [1 + H/10^6] in y; when, in addition, [x1 <= W-1], [x2 >= 1],
    [y1 <= H-1] and [y2 >= 1], so that the clamp leaves the rectangle
    alone (as for integer pixel coordinates), it differs by at most
    [W/10^6] in x and [H/10^6] in y, the rounding to six decimals. *)
Theorem roundtrip_through_label_file (up : Q -> bool) (fs : files)
    (label_path : string) (class_id : Z) (r : rect) (W H : Z) :
  0 < W -> 0 < H -> inside r W H ->
  exists cx cy w h,
    yolo_load_label decimal_int decimal_float
      (yolo_save_label up fs label_path class_id r (W, H)) label_path
    = Some (class_id, (Finite cx, Finite cy, Finite w, Finite h)) /\
    let r' := denormalize (Box cx cy w h) W H in
    let ex := (inject_Z W / 1000000)%Q in
    let ey := (inject_Z H / 1000000)%Q in
    (Qabs (rx1 r' - rx1 r) <= 1 + ex /\ Qabs (ry1 r' - ry1 r) <= 1 + ey /\
     Qabs (rx2 r' - rx2 r) <= 1 + ex /\ Qabs (ry2 r' - ry2 r) <= 1 + ey)%Q /\
    (within_clamp r W H ->
     (Qabs (rx1 r' - rx1 r) <= ex /\ Qabs (ry1 r' - ry1 r) <= ey /\
      Qabs (rx2 r' - rx2 r) <= ex /\ Qabs (ry2 r' - ry2 r) <= ey)%Q).
Proof.
  intros HW HH Hin.
  destruct (loaded_rect_near up fs label_path class_id r W H HW HH)
    as (cx & cy & w & h & Hload & _ & D1 & D2 & D3 & D4).
  exists cx, cy, w, h. split; [exact Hload|].
  destruct (roundtrip_within_one_exact_in_clamp r W H HW HH Hin) as [Hb He].
  destruct (denormalize_normalize r W H HW HH) as (E1 & E2 & E3 & E4).
  cbv zeta in Hb, He. rewrite E1, E2, E3, E4 in Hb.
  pose proof (inject_Z_pos W HW) as HW1. pose proof (inject_Z_pos H HH) as HH1.
  revert D1 D2 D3 D4 Hb He E1 E2 E3 E4.
  generalize (denormalize (Box cx cy w h) W H) as r'.
  generalize (order (clamp r W H)) as c.
  generalize (denormalize (normalize r W H) W H) as d.
  intros d c r' D1 D2 D3 D4 (B1 & B2 & B3 & B4) He E1 E2 E3 E4.
  cbv zeta. unfold Qdiv. change (/ 1000000)%Q with (1 # 1000000)%Q.
  assert (Hsum : forall a m x e1 e : Q,
            (Qabs (a - m) <= e1 -> Qabs (m - x) <= 1 -> e1 <= e ->
             Qabs (a - x) <= 1 + e)%Q).
  { intros a m x e1 e. do 3 (apply Qabs_case; intros ?); intros; lra. }
  assert (Hsame : forall a m x e1 e : Q,
            (Qabs (a - m) <= e1 -> m == x -> e1 <= e -> Qabs (a - x) <= e)%Q).
  { intros a m x e1 e Ha <-. lra. }
  split.
  - split; [|split; [|split]]; eapply Hsum; eauto; lra.
  - intros Hc. destruct (He Hc) as (C1 & C2 & C3 & C4).
    rewrite E1 in C1. rewrite E2 in C2. rewrite E3 in C3. rewrite E4 in C4.
    split; [|split; [|split]]; eapply Hsame; eauto; lra.
Qed.

(** C4 (as amended): for every rectangle, wherever it lies, and positive
    [W], [H], the values computed for the label and the values read back
    from the label file all lie in [[0,1]], and the rectangle recovered
    from the label file lies within [[0,W]] x [[0,H]] widened by [W/10^6]
    in x and [H/10^6] in y, the rounding to six decimals. *)
Theorem saved_record_unit_near_image (up : Q -> bool) (fs : files)
    (label_path : string) (class_id : Z) (r : rect) (W H : Z) :
  0 < W -> 0 < H ->
  let b := normalize r W H in
  (0 <= bcx b <= 1 /\ 0 <= bcy b <= 1 /\ 0 <= bw b <= 1 /\ 0 <= bh b <= 1)%Q /\
  exists cx cy w h,
    yolo_load_label decimal_int decimal_float
      (yolo_save_label up fs label_path class_id r (W, H)) label_path
    = Some (class_id, (Finite cx, Finite cy, Finite w, Finite h)) /\
    (0 <= cx <= 1 /\ 0 <= cy <= 1 /\ 0 <= w <= 1 /\ 0 <= h <= 1)%Q /\
    let r' := denormalize (Box cx cy w h) W H in
    let ex := (inject_Z W / 1000000)%Q in
    let ey := (inject_Z H / 1000000)%Q in
    (- ex <= rx1 r' <= inject_Z W + ex /\ - ey <= ry1 r' <= inject_Z H + ey /\
     - ex <= rx2 r' <= inject_Z W + ex /\ - ey <= ry2 r' <= inject_Z H + ey)%Q.
Proof.
  intros HW HH b. split.
  { apply to_box_unit; [assumption..|]. apply order_clamp_in_image; assumption. }
  destruct (loaded_rect_near up fs label_path class_id r W H HW HH)
    as (cx & cy & w & h & Hload & Hunit & D1 & D2 & D3 & D4).
  exists cx, cy, w, h. split; [exact Hload|]. split; [exact Hunit|].
  destruct (order_clamp_in_image W H HW HH r) as (?&?&?&?&?&?).
  pose proof (inject_Z_pos W HW) as HW1. pose proof (inject_Z_pos H HH) as HH1.
  revert D1 D2 D3 D4.
  generalize (denormalize (Box cx cy w h) W H) as r'.
  intros r'. cbv zeta. unfold Qdiv. change (/ 1000000)%Q with (1 # 1000000)%Q.
  assert (Hin : forall a m lo hi e1 e : Q,
            (Qabs (a - m) <= e1 -> lo <= m -> m <= hi -> e1 <= e ->
             lo - e <= a <= hi + e)%Q).
  { intros a m lo hi e1 e. apply Qabs_case; intros; lra. }
  intros D1 D2 D3 D4.
  assert (X1 := Hin _ _ 0%Q (inject_Z W) _ ((1 # 1000000) * inject_Z W)%Q D1).
  assert (X2 := Hin _ _ 0%Q (inject_Z H) _ ((1 # 1000000) * inject_Z H)%Q D2).
  assert (X3 := Hin _ _ 0%Q (inject_Z W) _ ((1 # 1000000) * inject_Z W)%Q D3).
  assert (X4 := Hin _ _ 0%Q (inject_Z H) _ ((1 # 1000000) * inject_Z H)%Q D4).
  split; [|split; [|split]];
    [destruct X1 | destruct X2 | destruct X3 | destruct X4]; try lra.
Qed.

End ThroughFile.

(** The end-to-end example of the specification: class 3 and the drag from
    (100,100) to (300,400) on a 1000 x 500 image. *)
Lemma roundtrip_through_label_file_witness :
  let r := Codec.Rect 100 100 300 400 in
  (0 < 1000 /\ 0 < 500 /\ Codec.inside r 1000 500 /\
   Codec.within_clamp r 1000 500) /\
  exists cx cy w h,
    LabelFile.yolo_load_label LabelFile.decimal_int LabelFile.decimal_float
      (LabelFile.yolo_save_label Text.half_even ∅ "a.txt" 3 r (1000, 500))
      "a.txt"
    = Some (3, (LabelFile.Finite cx, LabelFile.Finite cy,
                LabelFile.Finite w, LabelFile.Finite h)) /\
    let r' := Codec.denormalize (Codec.Box cx cy w h) 1000 500 in
    (Qabs (Codec.rx1 r' - 100) <= inject_Z 1000 / 1000000 /\
     Qabs (Codec.ry1 r' - 100) <= inject_Z 500 / 1000000 /\
     Qabs (Codec.rx2 r' - 300) <= inject_Z 1000 / 1000000 /\
     Qabs (Codec.ry2 r' - 400) <= inject_Z 500 / 1000000)%Q.
Proof.
  intros r.
  assert (Hin : Codec.inside r 1000 500).
  { unfold Codec.inside; simpl. repeat split; vm_compute; congruence. }
  assert (Hc : Codec.within_clamp r 1000 500).
  { unfold Codec.within_clamp; simpl. repeat split; vm_compute; congruence. }
  split; [split; [reflexivity | split; [reflexivity | split; assumption]]|].
  destruct (roundtrip_through_label_file Text.half_even ∅ "a.txt" 3 r
              1000 500 eq_refl eq_refl Hin)
    as (cx & cy & w & h & Hload & _ & Hnear).
  exists cx, cy, w, h. split; [exact Hload | exact (Hnear Hc)].
Defined.

(** C1 (as stated) fails: on a 7 x 7 image the rectangle from x = 6.999999
    to x = 7 lies inside the image; the clamp moves its left edge to 6, so
    the round trip is not exact, and after the rounding to six decimals
    the label file gives back 5.9999975, more than one pixel away. *)
Lemma roundtrip_through_label_file_beyond_one :
  let r := Codec.Rect (6999999 # 1000000) 0 7 7 in
  Codec.inside r 7 7 /\
  ~ Codec.rect_eq (Codec.denormalize (Codec.normalize r 7 7) 7 7) r /\
  exists cx cy w h,
    LabelFile.yolo_load_label LabelFile.decimal_int LabelFile.decimal_float
      (LabelFile.yolo_save_label Text.half_even ∅ "a.txt" 0 r (7, 7)) "a.txt"
    = Some (0, (LabelFile.Finite cx, LabelFile.Finite cy,
                LabelFile.Finite w, LabelFile.Finite h)) /\
    let r' := Codec.denormalize (Codec.Box cx cy w h) 7 7 in
    (cx == 928571 # 1000000 /\ w == 142857 # 1000000 /\
     Codec.rx1 r' == 59999975 # 10000000)%Q /\
    ~ (Qabs (Codec.rx1 r' - Codec.rx1 r) <= 1)%Q.
Proof.
  intros r. split; [|split].
  - unfold Codec.inside; simpl. repeat split; vm_compute; congruence.
  - intros (E & _). vm_compute in E. discriminate E.
  - eexists _, _, _, _. split; [vm_compute; reflexivity|].
    split; [repeat split; reflexivity|].
    intros E. vm_compute in E. apply E. reflexivity.
Qed.

(** A rectangle sticking out of a 1000 x 500 image on every side. *)
Lemma saved_record_unit_near_image_witness :
  let r := Codec.Rect (-50) (-20) 1200 700 in
  (0 < 1000 /\ 0 < 500) /\
  exists cx cy w h,
    LabelFile.yolo_load_label LabelFile.decimal_int LabelFile.decimal_float
      (LabelFile.yolo_save_label Text.half_even ∅ "a.txt" 3 r (1000, 500))
      "a.txt"
    = Some (3, (LabelFile.Finite cx, LabelFile.Finite cy,
                LabelFile.Finite w, LabelFile.Finite h)) /\
    (0 <= cx <= 1 /\ 0 <= cy <= 1 /\ 0 <= w <= 1 /\ 0 <= h <= 1)%Q.
Proof.
  intros r. split; [split; reflexivity|].
  destruct (saved_record_unit_near_image Text.half_even ∅ "a.txt" 3 r
              1000 500 eq_refl eq_refl)
    as (_ & cx & cy & w & h & Hload & Hunit & _).
  exists cx, cy, w, h. split; [exact Hload | exact Hunit].
Defined.

(** C4 (as stated) fails: on a 3 x 3 image the rectangle from x = 1 to
    x = 3 is saved as [cx = w = 0.666667], and the rectangle recovered from
    the label file ends at x = 3.0000015, outside the image. *)
Lemma saved_record_outside_image :
  let r := Codec.Rect 1 0 3 3 in
  exists cx cy w h,
    LabelFile.yolo_load_label LabelFile.decimal_int LabelFile.decimal_float
      (LabelFile.yolo_save_label Text.half_even ∅ "a.txt" 0 r (3, 3)) "a.txt"
    = Some (0, (LabelFile.Finite cx, LabelFile.Finite cy,
                LabelFile.Finite w, LabelFile.Finite h)) /\
    let r' := Codec.denormalize (Codec.Box cx cy w h) 3 3 in
    (cx == 666667 # 1000000 /\ w == 666667 # 1000000 /\
     Codec.rx2 r' == 30000015 # 10000000)%Q /\
    ~ (Codec.rx2 r' <= inject_Z 3)%Q.
Proof.
  intros r. eexists _, _, _, _. split; [vm_compute; reflexivity|].
  split; [repeat split; reflexivity|].
  intros E. vm_compute in E. apply E. reflexivity.
Qed.


(** ** The image list *)

Section ImageListClaims.
Import Text Images.

Lemma ends_with_iff (suffix name : string) :
  ends_with suffix name = true <-> exists pre, name = pre +:+ suffix.
Proof.
  induction name as [|c name IH]; cbn [ends_with].
  - rewrite orb_false_r, String.eqb_eq. split.
    + intros ->. exists "". reflexivity.
    + intros ([|? ?] & E); [symmetry; exact E | discriminate E].
  - rewrite orb_true_iff, String.eqb_eq, IH. split.
    + intros [-> | (pre & ->)]; [exists "" | exists (String c pre)]; reflexivity.
    + intros ([|c' pre] & E).
      * left. symmetry. exact E.
      * right. exists pre. rewrite app_cons in E. congruence.
Qed.

Lemma ends_with_tail (suffix : string) (c : ascii) (name : string) :
  ends_with suffix name = true -> ends_with suffix (String c name) = true.
Proof. intros E. cbn [ends_with]. rewrite E. apply orb_true_r. Qed.

(** Two suffixes neither of which ends with the other match no common
    name. *)
Lemma ends_with_disjoint (s1 s2 : string) :
  ends_with s1 s2 = false -> ends_with s2 s1 = false ->
  forall name, ends_with s1 name = true -> ends_with s2 name = true -> False.
Proof.
  intros H12 H21 name. induction name as [|c name IH]; cbn [ends_with].
  - rewrite !orb_false_r, !String.eqb_eq. intros E1 E2. subst s1 s2.
    cbn in H12. discriminate.
  - rewrite !orb_true_iff, !String.eqb_eq. intros [E1|E1] [E2|E2].
    + subst s1. subst s2. rewrite (proj2 (ends_with_iff _ _)) in H12;
        [discriminate | exists ""; reflexivity].
    + subst s1. rewrite (ends_with_tail _ _ _ E2) in H21. discriminate.
    + subst s2. rewrite (ends_with_tail _ _ _ E1) in H12. discriminate.
    + exact (IH E1 E2).
Qed.

Lemma filter_or_disjoint (P Q : string -> bool) (l : list string) :
  (forall x, P x = true -> Q x = true -> False) ->
  filter (fun x => P x || Q x) l ≡ₚ
  filter (fun x => P x) l ++ filter (fun x => Q x) l.
Proof.
  intros Hd. induction l as [|x l IH]; [reflexivity|].
  rewrite !filter_cons.
  destruct (P x) eqn:HP, (Q x) eqn:HQ.
  - destruct (Hd x HP HQ).
  - exact (perm_skip x IH).
  - eapply Permutation_trans;
      [exact (perm_skip x IH) | exact (Permutation_middle _ _ _)].
  - exact IH.
Qed.

Lemma Sorted_app_cross {A} (R : relation A) (l1 l2 : list A) :
  Sorted R l1 -> Sorted R l2 ->
  (forall x y, x ∈ l1 -> y ∈ l2 -> R x y) ->
  Sorted R (l1 ++ l2).
Proof.
  intros H1 H2 Hc. induction H1 as [|x l1 Hs IH Hh]; [exact H2|].
  cbn. constructor.
  - apply IH. intros a b Ha Hb. apply Hc; [right; exact Ha | exact Hb].
  - destruct Hh as [|y l1 Hxy]; cbn.
    + destruct H2 as [|y l2]; constructor.
      apply Hc; [left | left].
    + constructor. exact Hxy.
Qed.

Lemma Sorted_weaken {A} (R R' : relation A) (P : A -> Prop) (l : list A) :
  (forall x y, P x -> P y -> R x y -> R' x y) ->
  Forall P l -> Sorted R l -> Sorted R' l.
Proof.
  intros HR HP Hs. induction Hs as [|x l Hs IH Hh]; [constructor|].
  apply Forall_cons in HP as [Hx Hl]. constructor; [apply IH, Hl|].
  destruct Hh as [|y l Hxy]; constructor.
  apply Forall_cons in Hl as [Hy _]. apply HR; assumption.
Qed.

Lemma list_images_unfold (dir : list string) :
  list_images dir =
  sorted (filter (fun n => ends_with ".jpg" n) dir) ++
  sorted (filter (fun n => ends_with ".jpeg" n) dir) ++
  sorted (filter (fun n => ends_with ".png" n) dir) ++
  sorted (filter (fun n => ends_with ".bmp" n) dir).
Proof.
  unfold list_images, exts; cbn [foldl glob]. rewrite <- !app_assoc.
  reflexivity.
Qed.

Lemma jpg_jpeg n : ends_with ".jpg" n = true -> ends_with ".jpeg" n = true -> False.
Proof. apply ends_with_disjoint; reflexivity. Qed.
Lemma jpg_png n : ends_with ".jpg" n = true -> ends_with ".png" n = true -> False.
Proof. apply ends_with_disjoint; reflexivity. Qed.
Lemma jpg_bmp n : ends_with ".jpg" n = true -> ends_with ".bmp" n = true -> False.
Proof. apply ends_with_disjoint; reflexivity. Qed.
Lemma jpeg_png n : ends_with ".jpeg" n = true -> ends_with ".png" n = true -> False.
Proof. apply ends_with_disjoint; reflexivity. Qed.
Lemma jpeg_bmp n : ends_with ".jpeg" n = true -> ends_with ".bmp" n = true -> False.
Proof. apply ends_with_disjoint; reflexivity. Qed.
Lemma png_bmp n : ends_with ".png" n = true -> ends_with ".bmp" n = true -> False.
Proof. apply ends_with_disjoint; reflexivity. Qed.

Lemma group_of (n : string) :
  (ends_with ".jpg" n = true -> group n = 0%nat) /\
  (ends_with ".jpeg" n = true -> group n = 1%nat) /\
  (ends_with ".png" n = true -> group n = 2%nat) /\
  (ends_with ".bmp" n = true -> group n = 3%nat).
Proof.
  pose proof (jpg_jpeg n). pose proof (jpg_png n). pose proof (jpg_bmp n).
  pose proof (jpeg_png n). pose proof (jpeg_bmp n). pose proof (png_bmp n).
  unfold group.
  destruct (ends_with ".jpg" n), (ends_with ".jpeg" n),
    (ends_with ".png" n), (ends_with ".bmp" n);
    repeat split; intros; try reflexivity; try discriminate; exfalso; auto.
Qed.

(** One extension group: sorted by name, all of the same group. *)
Lemma sorted_group (suffix : string) (k : nat) (dir : list string) :
  (forall n, ends_with suffix n = true -> group n = k) ->
  Sorted group_le (sorted (filter (fun n => ends_with suffix n) dir)) /\
  Forall (fun n => group n = k)
    (sorted (filter (fun n => ends_with suffix n) dir)).
Proof.
  intros Hk.
  assert (HF : Forall (fun n => group n = k)
                 (sorted (filter (fun n => ends_with suffix n) dir))).
  { unfold sorted. rewrite merge_sort_Permutation.
    apply Forall_forall. intros n [Hn _]%list_elem_of_filter.
    apply Hk, Is_true_true, Hn. }
  split; [|exact HF].
  apply (Sorted_weaken String.le group_le (fun n => group n = k)); [|exact HF|].
  - intros x y Hx Hy Hxy. right. split; [congruence | exact Hxy].
  - apply Sorted_merge_sort; apply _.
Qed.

Lemma Sorted_groups (l1 l2 : list string) (k : nat) :
  Sorted group_le l1 -> Sorted group_le l2 ->
  Forall (fun n => (group n < k)%nat) l1 ->
  Forall (fun n => (k <= group n)%nat) l2 ->
  Sorted group_le (l1 ++ l2).
Proof.
  intros H1 H2 F1 F2. apply Sorted_app_cross; [assumption..|].
  intros x y Hx Hy. left.
  rewrite Forall_forall in F1. rewrite Forall_forall in F2.
  specialize (F1 x Hx). specialize (F2 y Hy). lia.
Qed.

(** C8 (as amended): the navigation sequence holds exactly the names of
    the directory that match one of the four extensions, each once; it is
    arranged by extension group (jpg, jpeg, png, bmp) and in sorted order
    within each group. *)
Theorem list_images_grouped_sorted (dir : list string) :
  (forall name, name ∈ list_images dir <-> name ∈ dir /\ is_image name = true) /\
  list_images dir ≡ₚ filter (fun n => is_image n) dir /\
  Sorted group_le (list_images dir).
Proof.
  assert (HP : list_images dir ≡ₚ filter (fun n => is_image n) dir).
  { rewrite list_images_unfold. unfold sorted.
    rewrite !merge_sort_Permutation. symmetry. unfold is_image.
    eapply Permutation_trans.
    { apply (filter_or_disjoint
               (fun n => ends_with ".jpg" n || ends_with ".jpeg" n ||
                         ends_with ".png" n)
               (fun n => ends_with ".bmp" n)).
      intros n [[H|H]%orb_prop|H]%orb_prop Hb;
        eauto using jpg_bmp, jpeg_bmp, png_bmp. }
    rewrite (filter_or_disjoint
               (fun n => ends_with ".jpg" n || ends_with ".jpeg" n)
               (fun n => ends_with ".png" n)).
    2:{ intros n [H|H]%orb_prop Hb; eauto using jpg_png, jpeg_png. }
    rewrite (filter_or_disjoint (fun n => ends_with ".jpg" n)
               (fun n => ends_with ".jpeg" n)) by apply jpg_jpeg.
    rewrite <- !app_assoc. reflexivity. }
  split; [|split; [exact HP|]].
  - intros name. rewrite HP, list_elem_of_filter.
    rewrite Is_true_true. tauto.
  - rewrite list_images_unfold.
    destruct (sorted_group ".jpg" 0 dir) as [S0 F0]; [apply group_of|].
    destruct (sorted_group ".jpeg" 1 dir) as [S1 F1]; [apply group_of|].
    destruct (sorted_group ".png" 2 dir) as [S2 F2]; [apply group_of|].
    destruct (sorted_group ".bmp" 3 dir) as [S3 F3]; [apply group_of|].
    apply (Sorted_groups _ _ 1); [exact S0| |
      eapply Forall_impl; [exact F0 | cbn; intros; lia] |
      repeat apply Forall_app_2; eapply Forall_impl; eauto; cbn; intros; lia].
    apply (Sorted_groups _ _ 2); [exact S1| |
      eapply Forall_impl; [exact F1 | cbn; intros; lia] |
      repeat apply Forall_app_2; eapply Forall_impl; eauto; cbn; intros; lia].
    apply (Sorted_groups _ _ 3); [exact S2 | exact S3 |
      eapply Forall_impl; [exact F2 | cbn; intros; lia] |
      eapply Forall_impl; [exact F3 | cbn; intros; lia]].
Qed.

(** C8 (as stated) fails: with [a.png] and [b.jpg] in the directory the
    jpg group comes first, so [b.jpg] precedes [a.png]. *)
Lemma list_images_not_sorted :
  list_images ["a.png"; "b.jpg"] = ["b.jpg"; "a.png"] /\
  ~ Sorted String.le (list_images ["a.png"; "b.jpg"]).
Proof.
  assert (E : list_images ["a.png"; "b.jpg"] = ["b.jpg"; "a.png"])
    by (vm_compute; reflexivity).
  split; [exact E|]. rewrite E. intros Hs.
  apply Sorted_inv in Hs as [_ Hh]. apply HdRel_inv in Hh.
  vm_compute in Hh. exact Hh.
Qed.

End ImageListClaims.

(** ** The window: navigation *)

Section GuiClaims.
Import Codec Text LabelFile Gui.

Variable E : env.

(** What each handler leaves alone. *)
Ltac frame :=
  intros; unfold draw_or_update_bbox, set_selected_class, clear_bbox;
  cbn; repeat case_match; cbn; try reflexivity; try tauto.

Lemma draw_or_update_bbox_frame p1 p2 s :
  let s' := draw_or_update_bbox p1 p2 s in
  images s' = images s /\ idx s' = idx s /\ class_names s' = class_names s /\
  class_vars s' = class_vars s /\ selected_class_id s' = selected_class_id s.
Proof. unfold draw_or_update_bbox. frame. Qed.

Lemma set_selected_class_frame c s :
  let s' := set_selected_class c s in
  images s' = images s /\ idx s' = idx s /\ class_names s' = class_names s.
Proof. unfold set_selected_class. frame. Qed.

Lemma load_image_frame i s :
  let s' := load_image E i s in
  images s' = images s /\ class_names s' = class_names s /\
  idx s' = Z.max 0 (Z.min i (Z.of_nat (length (images s)) - 1)).
Proof. unfold load_image. frame. Qed.

Lemma idx_ok_frame imgs s s' :
  images s' = images s -> idx s' = idx s -> idx_ok imgs s -> idx_ok imgs s'.
Proof. unfold idx_ok. intros -> ->. tauto. Qed.

Lemma load_image_idx_ok imgs i s :
  imgs <> [] -> images s = imgs -> idx_ok imgs (load_image E i s).
Proof.
  intros Hne Hi. destruct (load_image_frame i s) as (Him & _ & Hidx).
  unfold idx_ok. rewrite Him, Hidx, Hi.
  destruct imgs; [contradiction|]. cbn [length]. split; [reflexivity|lia].
Qed.

Lemma prev_image_idx s :
  idx (prev_image E s) =
  if decide (idx s > 0) then Z.max 0 (Z.min (idx s - 1) (Z.of_nat (length (images s)) - 1))
  else idx s.
Proof.
  unfold prev_image. destruct (decide (idx s > 0)); [|reflexivity].
  apply load_image_frame.
Qed.

Lemma next_image_idx s :
  idx (next_image E s) =
  if decide (idx s < Z.of_nat (length (images s)) - 1)
  then Z.max 0 (Z.min (idx s + 1) (Z.of_nat (length (images s)) - 1))
  else idx s.
Proof.
  unfold next_image. destruct (decide (idx s < _)); [|reflexivity].
  apply load_image_frame.
Qed.

Lemma save_label_blocked s :
  selected_class_id s = None \/ current_bbox_canvas s = None ->
  save_label E s = s.
Proof.
  unfold save_label. intros [-> | ->]; [reflexivity|].
  destruct (selected_class_id s); reflexivity.
Qed.

Lemma save_label_frame s :
  images (save_label E s) = images s /\
  class_names (save_label E s) = class_names s.
Proof.
  unfold save_label.
  destruct (selected_class_id s) as [c|]; [|tauto].
  destruct (current_bbox_canvas s) as [[[[x1 y1] x2] y2]|]; [|tauto].
  cbn. destruct (orig_img s) as [W H].
  destruct (images s !! Z.to_nat (idx s)) as [img|] eqn:Himg; [|tauto].
  cbn. case_decide; [|tauto].
  match goal with |- context [load_image E ?i ?s'] =>
    destruct (load_image_frame i s') as (-> & -> & _) end.
  tauto.
Qed.

Lemma save_label_idx imgs s c box :
  idx_ok imgs s ->
  selected_class_id s = Some c -> current_bbox_canvas s = Some box ->
  idx (save_label E s) =
  if decide (idx s < Z.of_nat (length imgs) - 1) then idx s + 1 else idx s.
Proof.
  intros [Him Hr] Hc Hb. unfold save_label. rewrite Hc, Hb.
  destruct box as [[[x1 y1] x2] y2]. cbn. destruct (orig_img s) as [W H].
  destruct (lookup_lt_is_Some_2 (images s) (Z.to_nat (idx s))) as [img Himg];
    [rewrite Him; lia|].
  rewrite Himg. cbn. rewrite Him.
  destruct (decide (idx s < _)); [|reflexivity].
  match goal with |- context [load_image E ?i ?s'] =>
    destruct (load_image_frame i s') as (_ & _ & ->) end.
  cbn. rewrite Him. lia.
Qed.

Lemma step_idx_ok imgs s e :
  imgs <> [] -> idx_ok imgs s -> idx_ok imgs (step E s e).
Proof.
  intros Hne Hs. pose proof Hs as [Him Hr]. destruct e; cbn [step].
  - apply (idx_ok_frame imgs s); [unfold on_press; frame..|exact Hs].
  - apply (idx_ok_frame imgs s); [unfold on_drag; frame..|exact Hs].
  - apply (idx_ok_frame imgs s); [unfold on_release; frame..|exact Hs].
  - apply (idx_ok_frame imgs s);
      [unfold click_class, on_class_toggle; frame..|exact Hs].
  - apply (idx_ok_frame imgs s); [unfold on_class_toggle; frame..|exact Hs].
  - exact Hs.
  - destruct (save_label_frame s) as [Hi _].
    split; [congruence|].
    destruct (selected_class_id s) as [c|] eqn:Hc;
      [destruct (current_bbox_canvas s) as [box|] eqn:Hb|].
    + rewrite (save_label_idx imgs s c box) by (unfold idx_ok; auto).
      case_decide; lia.
    + rewrite save_label_blocked by auto. exact Hr.
    + rewrite save_label_blocked by auto. exact Hr.
  - exact Hs.
  - unfold prev_image. case_decide; [|split; assumption].
    apply load_image_idx_ok; assumption.
  - unfold next_image. case_decide; [|split; assumption].
    apply load_image_idx_ok; assumption.
  - apply load_image_idx_ok; assumption.
Qed.

Lemma run_idx_ok imgs s es :
  imgs <> [] -> idx_ok imgs s -> idx_ok imgs (run E s es).
Proof.
  intros Hne. revert s. induction es as [|e es IH]; intros s Hs; [exact Hs|].
  cbn. apply IH, step_idx_ok; assumption.
Qed.

Lemma init_idx_ok names imgs fs : imgs <> [] -> idx_ok imgs (init E names imgs fs).
Proof. intros Hne. apply load_image_idx_ok; [exact Hne | reflexivity]. Qed.

(** C9: over a non-empty image list, after any sequence of events starting
    from the initial window the index stays within [[0, n-1]]; from such a
    state [prev_image] stops at 0 and [next_image] at [n-1] (no wraparound),
    a save that goes through moves on by one unless the index is already
    [n-1], a save stopped by a warning changes nothing, and [load_image]
    brings any requested index into range. *)
Theorem idx_stays_in_range (names imgs : list string) (fs : files)
    (es : list event) :
  imgs <> [] ->
  let n := Z.of_nat (length imgs) in
  let s := run E (init E names imgs fs) es in
  0 <= idx s <= n - 1 /\
  idx (prev_image E s) = (if decide (idx s = 0) then 0 else idx s - 1) /\
  idx (next_image E s) = (if decide (idx s = n - 1) then n - 1 else idx s + 1) /\
  (forall c box,
     selected_class_id s = Some c -> current_bbox_canvas s = Some box ->
     idx (save_label E s) =
     (if decide (idx s = n - 1) then n - 1 else idx s + 1)) /\
  (selected_class_id s = None \/ current_bbox_canvas s = None ->
   save_label E s = s) /\
  (forall i, idx (load_image E i s) = Z.max 0 (Z.min i (n - 1))).
Proof.
  intros Hne n s.
  destruct (run_idx_ok imgs (init E names imgs fs) es Hne
              (init_idx_ok names imgs fs Hne)) as [Him Hr].
  fold s in Him, Hr. fold n in Hr.
  split; [exact Hr|]. split; [|split; [|split; [|split]]].
  - rewrite prev_image_idx, Him. fold n. repeat case_decide; lia.
  - rewrite next_image_idx, Him. fold n. repeat case_decide; lia.
  - intros c box Hc Hb.
    rewrite (save_label_idx imgs s c box) by (unfold idx_ok; auto).
    fold n. repeat case_decide; lia.
  - apply save_label_blocked.
  - intros i. destruct (load_image_frame i s) as (_ & _ & ->).
    rewrite Him. reflexivity.
Qed.

End GuiClaims.

(** A session on two images: browse, pick a class, draw, save, go back. *)
Lemma idx_stays_in_range_witness :
  let imgs := ["a.jpg"; "b.jpg"] in
  let es := [Gui.Next; Gui.Next; Gui.ClickClass 0; Gui.Press 700 300;
             Gui.Release 900 500; Gui.Prev; Gui.Save; Gui.Prev; Gui.Prev] in
  let s := Gui.run Gui.example_env
             (Gui.init Gui.example_env ["alien"; "rock"] imgs ∅) es in
  imgs <> [] /\ 0 <= Gui.idx s <= 1.
Proof.
  intros imgs es s.
  assert (Hne : imgs <> []) by discriminate.
  split; [exact Hne|].
  exact (proj1 (idx_stays_in_range Gui.example_env ["alien"; "rock"] imgs ∅
                  es Hne)).
Defined.

(** ** The window: class selection *)

Section ClassClaims.
Import Codec Text LabelFile Gui.

Variable E : env.

(** The invariant only reads the class fields. *)
Lemma class_inv_ext (s s' : state) :
  class_names s' = class_names s -> class_vars s' = class_vars s ->
  selected_class_id s' = selected_class_id s -> class_inv s -> class_inv s'.
Proof.
  unfold class_inv, at_most_one_active, selection_consistent, active.
  intros -> -> ->. tauto.
Qed.

Lemma active_set_selected_class (c : option Z) (s : state) (j : nat) :
  active (set_selected_class c s) j <->
  (j < length (class_vars s))%nat /\ c = Some (Z.of_nat j).
Proof.
  unfold active, set_selected_class; cbn. rewrite list_lookup_imap.
  destruct (class_vars s !! j) as [v|] eqn:Hv; cbn.
  - apply lookup_lt_Some in Hv. case_decide; split; try tauto.
    intros [=].
  - apply lookup_ge_None in Hv. split; [discriminate | lia].
Qed.

Lemma set_selected_class_inv (c : option Z) (s : state) :
  length (class_vars s) = length (class_names s) ->
  class_inv (set_selected_class c s).
Proof.
  intros Hlen. split; [|split].
  - unfold set_selected_class; cbn. rewrite length_imap. exact Hlen.
  - intros i j [_ Hi]%active_set_selected_class [_ Hj]%active_set_selected_class.
    rewrite Hi in Hj. injection Hj. lia.
  - intros z Hz. change (selected_class_id (set_selected_class c s)) with c in Hz.
    subst c. change (class_names (set_selected_class (Some z) s))
      with (class_names s).
    destruct (decide (0 <= z < Z.of_nat (length (class_names s)))) as [Hin|Hout].
    + left. exists (Z.to_nat z). split; [lia|].
      apply active_set_selected_class. split; [lia|]. f_equal. lia.
    + right. split; [lia|].
      intros i [Hi [= Hz]]%active_set_selected_class. lia.
Qed.

Lemma active_cleared (i j : nat) (vars : list Z) :
  vars !! i = Some 1 ->
  imap (fun k var => if decide (k ≠ i) then 0 else var) vars !! j = Some 1 <->
  j = i.
Proof.
  intros Hi. rewrite list_lookup_imap. split.
  - destruct (vars !! j); cbn; [|discriminate].
    case_decide; [discriminate|]. intros _. destruct (decide (j = i)); tauto.
  - intros ->. rewrite Hi; cbn. case_decide; [contradiction|reflexivity].
Qed.

(** The callback, once the variable of its own check box is on. *)
Lemma on_class_toggle_on (i : nat) (s : state) :
  length (class_vars s) = length (class_names s) ->
  class_vars s !! i = Some 1 -> class_inv (on_class_toggle i s).
Proof.
  intros Hlen Hi. unfold on_class_toggle. rewrite Hi.
  destruct (decide (1 = 1)) as [_|?]; [|contradiction].
  split; [|split]; cbn.
  - rewrite length_imap. exact Hlen.
  - intros j k Hj Hk. unfold active in Hj, Hk; cbn in Hj, Hk.
    apply (active_cleared i j _ Hi) in Hj.
    apply (active_cleared i k _ Hi) in Hk. congruence.
  - intros z [= <-]. left. exists i. split; [reflexivity|].
    unfold active; cbn. apply (active_cleared i i _ Hi). reflexivity.
Qed.

Lemma on_class_toggle_inv (i : nat) (s : state) :
  class_inv s -> class_inv (on_class_toggle i s).
Proof.
  intros (Hlen & Hone & Hsel). unfold on_class_toggle.
  destruct (class_vars s !! i) as [v|] eqn:Hv; [|repeat split; assumption].
  destruct (decide (v = 1)) as [->|Hne].
  - pose proof (on_class_toggle_on i s Hlen Hv) as Hinv.
    unfold on_class_toggle in Hinv. rewrite Hv in Hinv. exact Hinv.
  - split; [exact Hlen|]. split; [exact Hone|]. intros z [=].
Qed.

Lemma click_class_inv (i : nat) (s : state) :
  class_inv s -> class_inv (click_class i s).
Proof.
  intros (Hlen & Hone & Hsel). unfold click_class.
  set (flip := fun v : Z => if decide (v = 1) then 0 else 1).
  set (s1 := set_class (selected_class_id s) (alter flip i (class_vars s)) s).
  assert (Hlen1 : length (class_vars s1) = length (class_names s1))
    by (cbn; rewrite length_alter; exact Hlen).
  assert (Hi1 : class_vars s1 !! i = flip <$> class_vars s !! i)
    by (cbn; apply list_lookup_alter_eq).
  assert (Hj1 : forall j, j <> i -> class_vars s1 !! j = class_vars s !! j)
    by (intros j Hj; cbn; apply list_lookup_alter_ne; congruence).
  assert (Hs1 : selected_class_id s1 = selected_class_id s) by reflexivity.
  assert (Hn1 : class_names s1 = class_names s) by reflexivity.
  clearbody s1.
  destruct (class_vars s !! i) as [v|] eqn:Hv; cbn in Hi1.
  - unfold flip in Hi1. destruct (decide (v = 1)) as [->|Hne].
    + (* the box was on: now off, and the selection is dropped *)
      unfold on_class_toggle. rewrite Hi1.
      destruct (decide (0 = 1)) as [?|_]; [discriminate|].
      split; [exact Hlen1|]. split; [|intros z [=]].
      intros j k Hj Hk. unfold active in Hj, Hk; cbn in Hj, Hk.
      destruct (decide (j = i)) as [->|Hji]; [congruence|].
      destruct (decide (k = i)) as [->|Hki]; [congruence|].
      rewrite Hj1 in Hj by assumption. rewrite Hj1 in Hk by assumption.
      apply Hone; assumption.
    + (* the box was off: now on, and the others are cleared *)
      apply on_class_toggle_on; assumption.
  - (* no such check box *)
    unfold on_class_toggle. rewrite Hi1.
    split; [exact Hlen1|].
    assert (Hact : forall j, active s1 j <-> active s j).
    { intros j. unfold active. destruct (decide (j = i)) as [->|Hji].
      - rewrite Hi1, Hv. tauto.
      - rewrite Hj1 by assumption. tauto. }
    split.
    + intros j k Hj%Hact Hk%Hact. apply Hone; assumption.
    + intros z Hz. rewrite Hs1 in Hz. rewrite Hn1.
      destruct (Hsel z Hz) as [(k & -> & Hk)|[Hout Hnone]].
      * left. exists k. split; [reflexivity|]. apply Hact, Hk.
      * right. split; [exact Hout|]. intros k Hk%Hact. exact (Hnone k Hk).
Qed.

(** [load_image] either leaves the class fields alone or sets the class
    read from the label file. *)
Lemma load_image_class (i : Z) (s : state) :
  let s' := load_image E i s in
  class_names s' = class_names s /\
  ((class_vars s' = class_vars s /\ selected_class_id s' = selected_class_id s)
   \/ exists cid,
        class_vars s' = class_vars (set_selected_class (Some cid) s) /\
        selected_class_id s' = Some cid).
Proof.
  unfold load_image, draw_or_update_bbox, set_selected_class; cbn.
  repeat case_match; cbn; split; try reflexivity; try (left; tauto).
  right. eexists. split; reflexivity.
Qed.

Lemma load_image_inv (i : Z) (s : state) :
  class_inv s -> class_inv (load_image E i s).
Proof.
  intros Hs. destruct (load_image_class i s) as (Hn & [[Hv Hc]|(cid & Hv & Hc)]).
  - apply (class_inv_ext s); assumption.
  - apply (class_inv_ext (set_selected_class (Some cid) s));
      [exact Hn | exact Hv | exact Hc|].
    apply set_selected_class_inv. exact (proj1 Hs).
Qed.

Lemma save_label_inv (s : state) : class_inv s -> class_inv (save_label E s).
Proof.
  intros Hs. unfold save_label.
  destruct (selected_class_id s) as [c|] eqn:Hc; [|exact Hs].
  destruct (current_bbox_canvas s) as [[[[x1 y1] x2] y2]|]; [|exact Hs].
  cbn. destruct (orig_img s) as [W H].
  destruct (images s !! Z.to_nat (idx s)) as [img|]; [|exact Hs].
  cbn. case_decide.
  - apply load_image_inv. apply (class_inv_ext s); try reflexivity; exact Hs.
  - apply (class_inv_ext s); try reflexivity; exact Hs.
Qed.

Lemma step_class_inv (s : state) (e : event) :
  class_inv s -> class_inv (step E s e).
Proof.
  intros Hs. destruct e; cbn [step].
  - apply (class_inv_ext s); [unfold on_press, draw_or_update_bbox; cbn; reflexivity..|exact Hs].
  - apply (class_inv_ext s); [unfold on_drag, draw_or_update_bbox;
      cbn; repeat case_match; reflexivity..|exact Hs].
  - apply (class_inv_ext s); [unfold on_release, draw_or_update_bbox;
      cbn; repeat case_match; reflexivity..|exact Hs].
  - apply click_class_inv, Hs.
  - apply on_class_toggle_inv, Hs.
  - apply set_selected_class_inv. exact (proj1 Hs).
  - apply save_label_inv, Hs.
  - exact Hs.
  - unfold prev_image. case_decide; [apply load_image_inv|]; exact Hs.
  - unfold next_image. case_decide; [apply load_image_inv|]; exact Hs.
  - apply load_image_inv, Hs.
Qed.

Lemma run_class_inv (s : state) (es : list event) :
  class_inv s -> class_inv (run E s es).
Proof.
  revert s. induction es as [|e es IH]; intros s Hs; [exact Hs|].
  cbn. apply IH, step_class_inv, Hs.
Qed.

Lemma init_class_inv names imgs fs : class_inv (init E names imgs fs).
Proof.
  apply load_image_inv. split; [|split]; cbn.
  - apply length_replicate.
  - intros i j Hi. unfold active in Hi; cbn in Hi.
    apply lookup_replicate in Hi as [[=] _].
  - intros z [=].
Qed.

(** Class names and images never change. *)
Lemma step_frame (s : state) (e : event) :
  class_names (step E s e) = class_names s /\ images (step E s e) = images s.
Proof.
  destruct e; cbn [step].
  - unfold on_press, draw_or_update_bbox; cbn. tauto.
  - unfold on_drag, draw_or_update_bbox; cbn. repeat case_match; tauto.
  - unfold on_release, draw_or_update_bbox; cbn. repeat case_match; tauto.
  - unfold click_class, on_class_toggle; cbn. repeat case_match; tauto.
  - unfold on_class_toggle; cbn. repeat case_match; tauto.
  - tauto.
  - destruct (save_label_frame E s). tauto.
  - tauto.
  - unfold prev_image. case_decide; [|tauto].
    destruct (load_image_frame E (idx s - 1) s) as (? & ? & _). tauto.
  - unfold next_image. case_decide; [|tauto].
    destruct (load_image_frame E (idx s + 1) s) as (? & ? & _). tauto.
  - destruct (load_image_frame E i s) as (? & ? & _). tauto.
Qed.

Lemma run_idx_names (s : state) (es : list event) :
  class_names (run E s es) = class_names s /\
  images (run E s es) = images s.
Proof.
  revert s. induction es as [|e es IH]; intros s; [tauto|].
  change (run E s (e :: es)) with (run E (step E s e) es).
  destruct (IH (step E s e)) as [-> ->]. apply step_frame.
Qed.

(** C10 (as amended): in every state the window can reach, hence after
    every class-selection operation ([on_class_toggle], a click on a check
    box, [set_selected_class] with any id, also one loaded from a label
    file), there is one check box per class, at most one of them is active,
    and [selected_class_id] is [None], or the index of the single active
    check box, or an id outside the class list, in which case no check box
    is active. *)
Theorem class_selection_exclusive (names imgs : list string) (fs : files)
    (es : list event) :
  let s := run E (init E names imgs fs) es in
  length (class_vars s) = length names /\
  at_most_one_active s /\ selection_consistent s.
Proof.
  intros s. destruct (run_class_inv (init E names imgs fs) es
                        (init_class_inv names imgs fs)) as (H0 & H1 & H2).
  fold s in H0, H1, H2. split; [|split; assumption]. rewrite H0. unfold s.
  destruct (run_idx_names (init E names imgs fs) es) as [-> _].
  unfold init.
  match goal with |- context [load_image E 0 ?s0] =>
    exact (f_equal length (proj1 (proj2 (load_image_frame E 0 s0)))) end.
Qed.

End ClassClaims.

(** C10 (as stated) fails: with two classes and a label file naming class
    5, the window opens with [selected_class_id = 5] and no check box on;
    5 is not the index of an active check box, nor an index into the class
    list. *)
Lemma selected_class_out_of_range :
  let s := Gui.init Gui.example_env ["alien"; "rock"] ["x.jpg"]
             {[ Gui.label_path_for "x.jpg" :=
                  LabelFile.ascii_file "5 0.5 0.5 0.2 0.2" ]} in
  Gui.selected_class_id s = Some 5 /\ Gui.class_vars s = [0; 0] /\
  ~ Gui.selection_is_active s.
Proof.
  intros s.
  assert (Hc : Gui.selected_class_id s = Some 5) by (vm_compute; reflexivity).
  assert (Hv : Gui.class_vars s = [0; 0]) by (vm_compute; reflexivity).
  split; [exact Hc|]. split; [exact Hv|].
  intros Hs. destruct (Hs 5 Hc) as (i & _ & Hi).
  unfold Gui.active in Hi. rewrite Hv in Hi.
  destruct i as [|[|i]]; discriminate Hi.
Qed.

(** * Further properties of the code *)

(** ** Codec: rectangles the clamp leaves alone *)

Section CodecMore.
Import Codec.

Lemma order_clamp_within_clamp (r : rect) (W H : Z) :
  0 < W -> 0 < H -> within_clamp (order (clamp r W H)) W H.
Proof.
  intros HW HH. generalize (clamp_ranges W H HW HH r).
  generalize (clamp r W H) as c.
  intros [x1 y1 x2 y2]; simpl. intros (Hx1 & Hx2 & Hy1 & Hy2).
  unfold within_clamp, order; simpl.
  destruct (Qlt_le_dec x2 x1), (Qlt_le_dec y2 y1); simpl; lra.
Qed.

(** On an ordered rectangle within the clamp ranges, [normalize] is just
    the division by the image size. *)
Lemma normalize_fixed (c d : rect) (W H : Z) :
  0 < W -> 0 < H ->
  ordered_in_image c W H -> within_clamp c W H -> rect_eq d c ->
  box_eq (normalize d W H) (to_box c W H).
Proof.
  intros HW HH (?&?&?&?&?&?) (?&?&?&?) (E1 & E2 & E3 & E4).
  pose proof (inject_Z_pred W). pose proof (inject_Z_pred H).
  assert (Hx1 : (rx1 (clamp d W H) == rx1 c)%Q)
    by (unfold clamp; cbn [rx1]; minmax; lra).
  assert (Hy1 : (ry1 (clamp d W H) == ry1 c)%Q)
    by (unfold clamp; cbn [ry1]; minmax; lra).
  assert (Hx2 : (rx2 (clamp d W H) == rx2 c)%Q)
    by (unfold clamp; cbn [rx2]; minmax; lra).
  assert (Hy2 : (ry2 (clamp d W H) == ry2 c)%Q)
    by (unfold clamp; cbn [ry2]; minmax; lra).
  revert Hx1 Hy1 Hx2 Hy2. unfold normalize.
  generalize (clamp d W H) as c'. intros [a1 b1 a2 b2]; simpl. intros.
  rewrite order_id by (simpl; lra).
  unfold box_eq, to_box; simpl. rewrite Hx1, Hy1, Hx2, Hy2.
  repeat split; reflexivity.
Qed.

End CodecMore.

(** ** Label files: what is written is read back *)

Section LabelFileMore.
Import Codec Text LabelFile.

(** X3: for positive [W], [H], loading a label file right after saving it
    (reading the numbers as decimals) gives the saved class id and four
    values that are within [0.5e-6] of the computed ones and lie in
    [[0,1]]; a saved label is never reported as missing. *)
Theorem saved_label_loads_back (up : Q -> bool) (fs : files)
    (label_path : string) (class_id : Z) (r : rect) (W H : Z) :
  0 < W -> 0 < H ->
  let b := normalize r W H in
  exists cx cy w h,
    yolo_load_label decimal_int decimal_float
      (yolo_save_label up fs label_path class_id r (W, H)) label_path
    = Some (class_id, (Finite cx, Finite cy, Finite w, Finite h)) /\
    (Qabs (cx - bcx b) <= 1 # 2000000 /\ Qabs (cy - bcy b) <= 1 # 2000000 /\
     Qabs (w - bw b) <= 1 # 2000000 /\ Qabs (h - bh b) <= 1 # 2000000)%Q /\
    (0 <= cx <= 1 /\ 0 <= cy <= 1 /\ 0 <= w <= 1 /\ 0 <= h <= 1)%Q.
Proof.
  intros HW HH b.
  destruct (yolo_load_after_save up fs label_path class_id r W H)
    as (cx & cy & w & h & Hload & V1 & V2 & V3 & V4).
  fold b in V1, V2, V3, V4.
  destruct (to_box_unit W H HW HH _ (order_clamp_in_image W H HW HH r))
    as (U1 & U2 & U3 & U4).
  change (to_box (order (clamp r W H)) W H) with b in U1, U2, U3, U4.
  exists cx, cy, w, h. split; [exact Hload|]. split.
  - rewrite V1, V2, V3, V4. repeat split; apply round_6_near.
  - rewrite V1, V2, V3, V4.
    pose proof (round_6_unit up _ U1). pose proof (round_6_unit up _ U2).
    pose proof (round_6_unit up _ U3). pose proof (round_6_unit up _ U4). tauto.
Qed.

Lemma saved_label_loads_back_witness :
  (0 < 3 /\ 0 < 3) /\
  exists cx cy w h,
    yolo_load_label decimal_int decimal_float
      (yolo_save_label half_even ∅ "a.txt" 2 (Rect 0 0 1 2) (3, 3)) "a.txt"
    = Some (2, (Finite cx, Finite cy, Finite w, Finite h)) /\
    (Qabs (cx - (1 # 6)) <= 1 # 2000000)%Q /\ (0 <= w <= 1)%Q.
Proof.
  split; [split; reflexivity|].
  destruct (saved_label_loads_back half_even ∅ "a.txt" 2 (Rect 0 0 1 2) 3 3
              eq_refl eq_refl)
    as (cx & cy & w & h & Hload & (D1 & _) & (_ & _ & U3 & _)).
  exists cx, cy, w, h. split; [exact Hload|]. split; [|exact U3].
  assert (E : (bcx (normalize (Rect 0 0 1 2) 3 3) == 1 # 6)%Q) by reflexivity.
  rewrite <- E. exact D1.
Defined.

Section AnyConversion.

Variable int_of_str : text -> option Z.
Variable float_of_str : text -> option pyfloat.

Lemma parse_label_tokens (c1 c2 : text) :
  first_line_tokens c1 = first_line_tokens c2 ->
  parse_label int_of_str float_of_str c1 =
  parse_label int_of_str float_of_str c2.
Proof.
  unfold first_line_tokens, parse_label. intros ->. reflexivity.
Qed.

Lemma first_line_tokens_cut (line : text) (c : N) (rest : text) :
  forallb not_newline line = true -> is_newline c = true ->
  first_line_tokens (line ++ c :: rest) = split line.
Proof.
  intros Hl Hc. apply split_first_line. split; [exact Hl|].
  right. exists c, rest. auto.
Qed.

Lemma first_line_tokens_strip (line : text) :
  forallb not_newline line = true ->
  first_line_tokens (strip line) = split line /\
  first_line_tokens line = split line.
Proof.
  intros Hl. unfold first_line_tokens. split.
  - rewrite readline_no_newline.
    + rewrite !split_strip. reflexivity.
    + unfold strip. apply forallb_rstrip, forallb_lstrip, Hl.
  - rewrite readline_no_newline by exact Hl. apply split_strip.
Qed.

(** X4: of a label file that can be read as text, [yolo_load_label] uses
    the first line only: the text that follows the first line end (LF or
    CR) plays no part, nor does white space around the line; a file whose
    first line is empty or blank has no label. *)
Theorem yolo_load_label_first_line (fs : files) (label_path : string)
    (line rest : text) (c : N) :
  forallb not_newline line = true -> is_newline c = true ->
  let load content :=
    yolo_load_label int_of_str float_of_str
      (<[label_path := Readable content]> fs) label_path in
  load (line ++ c :: rest) = load line /\
  load (strip line) = load line /\
  (forallb is_space line = true -> load (line ++ c :: rest) = None).
Proof.
  intros Hl Hc load. unfold load, yolo_load_label.
  rewrite !lookup_insert_eq.
  destruct (first_line_tokens_strip line Hl) as [Hs Hp].
  pose proof (first_line_tokens_cut line c rest Hl Hc) as Hcut.
  split; [|split].
  - apply parse_label_tokens. congruence.
  - apply parse_label_tokens. congruence.
  - intros Hb. unfold parse_label.
    change (split (strip (readline (line ++ c :: rest))))
      with (first_line_tokens (line ++ c :: rest)).
    rewrite Hcut, (split_all_space line Hb). reflexivity.
Qed.

End AnyConversion.

End LabelFileMore.

(** The spec's example of a short line, followed by other lines. *)
Lemma yolo_load_label_first_line_witness :
  let load content :=
    LabelFile.yolo_load_label LabelFile.decimal_int LabelFile.decimal_float
      (<["a.txt" := LabelFile.Readable content]> ∅) "a.txt" in
  let line := Text.text_of_string " 1 0.5 0.5 0.2 0.2 " in
  (forallb Text.not_newline line = true /\ Text.is_newline 10 = true) /\
  load (line ++ 10%N :: Text.text_of_string "7 7 7 7 7") = load line /\
  load line =
    Some (1, (LabelFile.Finite (5 # 10), LabelFile.Finite (5 # 10),
              LabelFile.Finite (2 # 10), LabelFile.Finite (2 # 10))).
Proof.
  intros load line.
  assert (Hl : forallb Text.not_newline line = true) by reflexivity.
  assert (Hc : Text.is_newline 10 = true) by reflexivity.
  split; [split; assumption|]. split.
  - exact (proj1 (yolo_load_label_first_line LabelFile.decimal_int
                    LabelFile.decimal_float ∅ "a.txt" line
                    (Text.text_of_string "7 7 7 7 7") 10%N Hl Hc)).
  - reflexivity.
Defined.

(** ** The image list does not depend on the listing order *)

Section ImageListMore.
Import Text Images.

Lemma sorted_perm (l1 l2 : list string) : l1 ≡ₚ l2 -> sorted l1 = sorted l2.
Proof.
  intros Hp. unfold sorted.
  apply (StronglySorted_unique String.le).
  - apply StronglySorted_merge_sort; apply _.
  - apply StronglySorted_merge_sort; apply _.
  - rewrite !merge_sort_Permutation. exact Hp.
Qed.

(** X5: the navigation sequence depends only on which names are in the
    directory, not on the order in which the directory lists them. *)
Theorem list_images_listing_order (dir dir' : list string) :
  dir ≡ₚ dir' -> list_images dir = list_images dir'.
Proof.
  intros Hp. rewrite !list_images_unfold.
  f_equal; [|f_equal; [|f_equal]]; apply sorted_perm; rewrite Hp; reflexivity.
Qed.

Lemma list_images_listing_order_witness :
  ["b.png"; "a.jpg"; "notes.txt"; "c.jpg"] ≡ₚ
  ["c.jpg"; "notes.txt"; "a.jpg"; "b.png"] /\
  list_images ["b.png"; "a.jpg"; "notes.txt"; "c.jpg"] =
  list_images ["c.jpg"; "notes.txt"; "a.jpg"; "b.png"].
Proof.
  assert (Hp : ["b.png"; "a.jpg"; "notes.txt"; "c.jpg"] ≡ₚ
               ["c.jpg"; "notes.txt"; "a.jpg"; "b.png"]).
  { apply (Permutation_trans (l' := ["c.jpg"; "b.png"; "a.jpg"; "notes.txt"])).
    - symmetry. apply (Permutation_cons_append ["b.png"; "a.jpg"; "notes.txt"]).
    - apply perm_skip.
      apply (Permutation_trans (l' := ["a.jpg"; "notes.txt"; "b.png"])).
      + apply (Permutation_cons_append ["a.jpg"; "notes.txt"]).
      + apply perm_swap. }
  split; [exact Hp|]. exact (list_images_listing_order _ _ Hp).
Defined.

End ImageListMore.

(** ** The class list *)

Section ClassesMore.
Import Classes.

Lemma str_items_iff (items : list yaml) (names : list string) :
  str_items items = Some names <-> items = map YStr names.
Proof.
  revert names. induction items as [|x items IH]; intros names; cbn.
  - split; [intros [= <-]; reflexivity|].
    destruct names; [reflexivity | discriminate].
  - destruct x; try (split; [discriminate|]; destruct names; discriminate).
    destruct (str_items items) as [l|] eqn:E; cbn.
    + split.
      * intros [= <-]. cbn. f_equal. apply IH. reflexivity.
      * destruct names as [|n names]; [discriminate|]. cbn. intros [= -> Hi].
        apply IH in Hi. congruence.
    + split; [discriminate|].
      destruct names as [|n names]; [discriminate|]. cbn. intros [= -> Hi].
      apply IH in Hi. discriminate.
Qed.

(** X6: [load_class_names] returns a class list exactly when the document
    is a mapping whose entry [names] (the last one, if repeated) is a
    sequence of strings, and then returns those strings in order; an empty
    sequence is accepted. A missing entry, a sequence with an item that is
    not a string, or an entry that is not a sequence is a [ValueError]; a
    document that is not a mapping is an [AttributeError], a missing file a
    [FileNotFoundError]. *)
Theorem load_class_names_accepts (doc : option yaml) (names : list string) :
  (load_class_names doc = Names names <->
   exists pairs, doc = Some (YMap pairs) /\
                 dict_get "names" pairs = Some (YList (map YStr names))) /\
  (load_class_names doc = FileNotFoundError <-> doc = None) /\
  (load_class_names doc = AttributeError <->
   exists d, doc = Some d /\ forall pairs, d <> YMap pairs) /\
  (load_class_names doc = ValueError <->
   exists pairs, doc = Some (YMap pairs) /\
     forall l, dict_get "names" pairs <> Some (YList (map YStr l))).
Proof.
  unfold load_class_names. split; [|split; [|split]].
  - split.
    + destruct doc as [[]|]; try discriminate.
      destruct (dict_get "names" pairs) as [[]|] eqn:Eg; try discriminate.
      destruct (str_items items) as [l|] eqn:E; [|discriminate].
      intros [= ->]. apply str_items_iff in E. subst items.
      exists pairs. split; [reflexivity | exact Eg].
    + intros (pairs & -> & ->).
      rewrite (proj2 (str_items_iff _ names) eq_refl). reflexivity.
  - split; [|intros ->; reflexivity].
    destruct doc as [[]|]; try discriminate; [|reflexivity].
    destruct (dict_get "names" pairs) as [[]|]; try discriminate.
    destruct (str_items items); discriminate.
  - split.
    + destruct doc as [d|]; [|discriminate]. intros Hd. exists d.
      split; [reflexivity|]. intros pairs ->.
      destruct (dict_get "names" pairs) as [[]|]; try discriminate.
      destruct (str_items items); discriminate.
    + intros (d & -> & Hd). destruct d; try reflexivity.
      destruct (Hd pairs eq_refl).
  - split.
    + destruct doc as [[]|]; try discriminate. intros Hv. exists pairs.
      split; [reflexivity|]. intros l El. rewrite El in Hv.
      rewrite (proj2 (str_items_iff _ l) eq_refl) in Hv. discriminate.
    + intros (pairs & -> & Hn).
      destruct (dict_get "names" pairs) as [[]|]; try reflexivity.
      destruct (str_items items) as [l|] eqn:E; [|reflexivity].
      apply str_items_iff in E. subst items. destruct (Hn l eq_refl).
Qed.

End ClassesMore.

(** ** The window: label paths *)

Section LabelPathMore.
Import Text Gui Window.

Lemma before_last_dot_none (ext : string) :
  all_chars not_dot ext = true -> before_last_dot ext = None.
Proof.
  induction ext as [|c ext IH]; [reflexivity|].
  cbn [all_chars]. intros [Hc He]%andb_prop. apply negb_true_iff in Hc.
  cbn [before_last_dot]. rewrite (IH He), Hc. reflexivity.
Qed.

Lemma before_last_dot_ext (base ext : string) :
  all_chars not_dot ext = true ->
  before_last_dot (base +:+ "." +:+ ext) = Some base.
Proof.
  intros He. induction base as [|c base IH].
  - rewrite app_nil. change ("." +:+ ext) with (String "." ext).
    cbn [before_last_dot]. rewrite (before_last_dot_none ext He). reflexivity.
  - rewrite app_cons. cbn [before_last_dot]. rewrite IH. reflexivity.
Qed.

Lemma ends_with_dot_no_dot (ext : string) :
  all_chars not_dot ext = true -> ends_with_dot ext = false.
Proof.
  induction ext as [|c ext IH]; [reflexivity|].
  cbn [all_chars]. intros [Hc He]%andb_prop. apply negb_true_iff in Hc.
  cbn [ends_with_dot]. destruct ext; [exact Hc | exact (IH He)].
Qed.

Lemma ends_with_dot_app (a ext : string) :
  ext <> "" -> ends_with_dot (a +:+ ext) = ends_with_dot ext.
Proof.
  intros Hne. induction a as [|c a IH]; [reflexivity|].
  rewrite app_cons. cbn [ends_with_dot].
  destruct (a +:+ ext) eqn:E; [|exact IH].
  destruct a; [rewrite app_nil in E; contradiction | discriminate E].
Qed.

(** X7: the label file of an image is named after the image name without
    its extension (the part after the last dot), so two images that differ
    only in the extension, such as [a.jpg] and [a.png], share one label
    file. *)
Theorem label_path_ignores_extension (base ext ext' : string) :
  base <> "" -> ext <> "" -> ext' <> "" ->
  all_chars not_dot ext = true -> all_chars not_dot ext' = true ->
  stem (base +:+ "." +:+ ext) = base /\
  label_path_for (base +:+ "." +:+ ext) = LABELS_DIR +:+ "/" +:+ base +:+ ".txt" /\
  label_path_for (base +:+ "." +:+ ext) = label_path_for (base +:+ "." +:+ ext').
Proof.
  intros Hb He He' Hd Hd'.
  assert (Hstem : forall e, e <> "" -> all_chars not_dot e = true ->
                            stem (base +:+ "." +:+ e) = base).
  { intros e Hne Hde. unfold stem. rewrite (before_last_dot_ext base e Hde).
    destruct base as [|c base']; [contradiction|].
    change (String c base' +:+ "." +:+ e)
      with (String c base' +:+ String "." e).
    rewrite ends_with_dot_app by discriminate.
    change (ends_with_dot (String "." e)) with
      (match e with "" => true | _ => ends_with_dot e end).
    destruct e as [|c0 e0]; [contradiction|].
    rewrite (ends_with_dot_no_dot _ Hde). reflexivity. }
  unfold label_path_for. rewrite (Hstem ext He Hd), (Hstem ext' He' Hd').
  repeat split; reflexivity.
Qed.

Lemma label_path_ignores_extension_witness :
  ("cave_01" <> "" /\ "jpg" <> "" /\ "png" <> "" /\
   all_chars not_dot "jpg" = true /\ all_chars not_dot "png" = true) /\
  stem "cave_01.jpg" = "cave_01" /\
  label_path_for "cave_01.jpg" = label_path_for "cave_01.png".
Proof.
  assert (H1 : "cave_01" <> "") by discriminate.
  assert (H2 : "jpg" <> "") by discriminate.
  assert (H3 : "png" <> "") by discriminate.
  split; [repeat split; assumption || reflexivity|].
  destruct (label_path_ignores_extension "cave_01" "jpg" "png" H1 H2 H3
              eq_refl eq_refl) as (Hs & _ & Hl).
  split; [exact Hs | exact Hl].
Defined.

End LabelPathMore.

(** ** The window: drawing *)

Section DrawingMore.
Import Codec Text LabelFile Gui Window.

Variable E : env.

Lemma draw_or_update_bbox_bbox (p1 p2 : Z * Z) (s : state) :
  current_bbox_canvas (draw_or_update_bbox p1 p2 s) =
  Some (clamp_x p1.1, clamp_y p1.2, clamp_x p2.1, clamp_y p2.2).
Proof. destruct p1, p2. reflexivity. Qed.

Lemma clamped_in_canvas (a b c d : Z) :
  in_canvas (clamp_x a, clamp_y b, clamp_x c, clamp_y d).
Proof.
  unfold in_canvas, clamp_x, clamp_y, MAX_CANVAS_W, MAX_CANVAS_H. lia.
Qed.

Lemma draw_or_update_bbox_in_canvas (p1 p2 : Z * Z) (s : state) :
  bbox_in_canvas (draw_or_update_bbox p1 p2 s).
Proof.
  intros b. rewrite draw_or_update_bbox_bbox. intros [= <-].
  apply clamped_in_canvas.
Qed.

Lemma bbox_in_canvas_ext (s s' : state) :
  current_bbox_canvas s' = current_bbox_canvas s ->
  bbox_in_canvas s -> bbox_in_canvas s'.
Proof. unfold bbox_in_canvas. intros ->. tauto. Qed.

Lemma bbox_in_canvas_none (s : state) :
  current_bbox_canvas s = None -> bbox_in_canvas s.
Proof. intros Hn b. rewrite Hn. discriminate. Qed.

(** After [load_image] the rectangle is the old one (no image to show),
    gone, or freshly drawn. *)
Lemma load_image_bbox (i : Z) (s : state) :
  bbox_in_canvas s -> bbox_in_canvas (load_image E i s).
Proof.
  intros Hs. unfold load_image. cbn [images idx set_idx].
  destruct (images s !! _) as [img|]; [|exact Hs].
  destruct (image_size E img) as [W H].
  destruct (yolo_load_label _ _ _ _) as [[cid [[[cx cy] w] h]]|];
    [|apply bbox_in_canvas_none; reflexivity].
  destruct cx, cy, w, h; try (apply bbox_in_canvas_none; reflexivity).
  cbv zeta.
  match goal with |- bbox_in_canvas (set_selected_class _ ?d) =>
    apply (bbox_in_canvas_ext d); [reflexivity|] end.
  apply draw_or_update_bbox_in_canvas.
Qed.

Lemma save_label_bbox (s : state) :
  bbox_in_canvas s -> bbox_in_canvas (save_label E s).
Proof.
  intros Hs. unfold save_label.
  destruct (selected_class_id s) as [c|]; [|exact Hs].
  destruct (current_bbox_canvas s) as [[[[x1 y1] x2] y2]|] eqn:Hb; [|exact Hs].
  cbn. destruct (orig_img s) as [W H].
  destruct (images s !! Z.to_nat (idx s)) as [img|]; [|exact Hs].
  cbn. case_decide.
  - apply load_image_bbox. apply (bbox_in_canvas_ext s); [reflexivity|exact Hs].
  - apply (bbox_in_canvas_ext s); [reflexivity|exact Hs].
Qed.

Lemma step_bbox (s : state) (e : event) :
  bbox_in_canvas s -> bbox_in_canvas (step E s e).
Proof.
  intros Hs. destruct e; cbn [step].
  - apply draw_or_update_bbox_in_canvas.
  - unfold on_drag. destruct (dragging s); [|exact Hs].
    apply draw_or_update_bbox_in_canvas.
  - unfold on_release. destruct (dragging s); [|exact Hs].
    apply draw_or_update_bbox_in_canvas.
  - apply (bbox_in_canvas_ext s); [|exact Hs].
    unfold click_class, on_class_toggle; cbn. repeat case_match; reflexivity.
  - apply (bbox_in_canvas_ext s); [|exact Hs].
    unfold on_class_toggle; cbn. repeat case_match; reflexivity.
  - exact Hs.
  - apply save_label_bbox, Hs.
  - apply bbox_in_canvas_none. reflexivity.
  - unfold prev_image. case_decide; [apply load_image_bbox|]; exact Hs.
  - unfold next_image. case_decide; [apply load_image_bbox|]; exact Hs.
  - apply load_image_bbox, Hs.
Qed.

(** X8: whatever happens to the window, the rectangle on the canvas keeps
    all four coordinates within the canvas, also when the pointer leaves
    it or a label file describes a box outside the image. *)
Theorem bbox_stays_in_canvas (names imgs : list string) (fs : files)
    (es : list event) :
  bbox_in_canvas (run E (init E names imgs fs) es).
Proof.
  assert (H0 : bbox_in_canvas (init E names imgs fs)).
  { apply load_image_bbox, bbox_in_canvas_none. reflexivity. }
  revert H0. generalize (init E names imgs fs) as s.
  induction es as [|e es IH]; intros s Hs; [exact Hs|].
  apply (IH (step E s e)), step_bbox, Hs.
Qed.

Lemma on_drag_frame (x y : Z) (t : state) :
  dragging t = true ->
  let t' := on_drag x y t in
  dragging t' = true /\ start_xy t' = start_xy t /\ idx t' = idx t /\
  selected_class_id t' = selected_class_id t /\
  class_vars t' = class_vars t /\ disk t' = disk t.
Proof.
  intros Hd. unfold on_drag. rewrite Hd. destruct (start_xy t) eqn:Hs.
  cbn. tauto.
Qed.

Lemma run_gesture (s : state) (p q : Z * Z) (moves : list (Z * Z)) :
  run E s (gesture p moves q) =
  on_release q.1 q.2
    (foldl (step E) (on_press p.1 p.2 s)
       (map (fun m => Drag m.1 m.2) moves)).
Proof. unfold run, gesture. cbn [foldl]. rewrite foldl_app. reflexivity. Qed.

(** X9: a press, any motions and a release leave the rectangle spanned by
    the press point and the release point (each clamped to the canvas),
    whatever the motions in between were; the drag is over, and the image,
    the class selection and the label files are untouched. *)
Theorem gesture_result (s : state) (p q : Z * Z) (moves : list (Z * Z)) :
  let s' := run E s (gesture p moves q) in
  current_bbox_canvas s' =
    Some (clamp_x p.1, clamp_y p.2, clamp_x q.1, clamp_y q.2) /\
  dragging s' = false /\
  idx s' = idx s /\ selected_class_id s' = selected_class_id s /\
  class_vars s' = class_vars s /\ disk s' = disk s.
Proof.
  intros s'. unfold s'. clear s'. rewrite run_gesture.
  assert (Hinv : forall t,
            dragging t = true -> start_xy t = p ->
            let t' := foldl (step E) t (map (fun m => Drag m.1 m.2) moves) in
            dragging t' = true /\ start_xy t' = p /\ idx t' = idx t /\
            selected_class_id t' = selected_class_id t /\
            class_vars t' = class_vars t /\ disk t' = disk t).
  { induction moves as [|m moves IH]; intros t Hd Hp; [cbn; tauto|].
    cbn [map foldl step].
    destruct (on_drag_frame m.1 m.2 t Hd) as (Hd1 & Hp1 & Hi1 & Hc1 & Hv1 & Hk1).
    rewrite Hp in Hp1.
    destruct (IH (on_drag m.1 m.2 t) Hd1 Hp1) as (? & ? & -> & -> & -> & ->).
    tauto. }
  assert (Hp0 : start_xy (on_press p.1 p.2 s) = p) by (destruct p; reflexivity).
  destruct (Hinv (on_press p.1 p.2 s) eq_refl Hp0)
    as (Hd & Hp & Hi & Hc & Hv & Hk).
  revert Hd Hp Hi Hc Hv Hk.
  generalize (foldl (step E) (on_press p.1 p.2 s)
                (map (fun m => Drag m.1 m.2) moves)) as t.
  intros t Hd Hp Hi Hc Hv Hk. unfold on_release. rewrite Hd.
  cbn [start_xy end_xy set_drag]. rewrite Hp.
  rewrite draw_or_update_bbox_bbox. destruct p, q. cbn in *. tauto.
Qed.

End DrawingMore.

(** ** The window: class check boxes *)

Section ClickMore.
Import Codec Text LabelFile Gui Window.

Variable E : env.

(** X10: in a state the window can reach, a click on the check box of an
    existing class that was off makes it the selection and the only active
    box; a click on the active box leaves nothing selected and no box
    active. *)
Theorem click_class_outcome (names imgs : list string) (fs : files)
    (es : list event) (i : nat) :
  (i < length names)%nat ->
  let s := run E (init E names imgs fs) es in
  let s' := click_class i s in
  (active s i ->
   selected_class_id s' = None /\ forall j, ~ active s' j) /\
  (~ active s i ->
   selected_class_id s' = Some (Z.of_nat i) /\
   forall j, active s' j <-> j = i).
Proof.
  intros Hi s s'.
  destruct (run_class_inv E (init E names imgs fs) es
              (init_class_inv E names imgs fs)) as (Hlen & Hone & _).
  fold s in Hlen, Hone.
  assert (Hn : class_names s = names).
  { unfold s. destruct (run_idx_names E (init E names imgs fs) es) as [-> _].
    unfold init.
    match goal with |- context [load_image E 0 ?s0] =>
      exact (proj1 (proj2 (load_image_frame E 0 s0))) end. }
  rewrite Hn in Hlen.
  destruct (lookup_lt_is_Some_2 (class_vars s) i) as [v Hv]; [lia|].
  set (flip := fun v : Z => if decide (v = 1) then 0 else 1).
  assert (Hai : alter flip i (class_vars s) !! i = Some (flip v))
    by (rewrite list_lookup_alter_eq, Hv; reflexivity).
  unfold active. split.
  - intros Ha. rewrite Hv in Ha. injection Ha as ->.
    change (flip 1) with 0 in Hai.
    unfold s', click_class, on_class_toggle. cbn [class_vars set_class].
    fold flip. rewrite Hai.
    destruct (decide (0 = 1)) as [?|_]; [discriminate|].
    cbn. split; [reflexivity|]. intros j Hj.
    destruct (decide (j = i)) as [->|Hji].
    + rewrite Hai in Hj. discriminate Hj.
    + rewrite list_lookup_alter_ne in Hj by congruence.
      apply Hji, (Hone j i Hj Hv).
  - intros Ha. assert (Hv1 : v <> 1) by (intros ->; apply Ha, Hv).
    assert (Hf : flip v = 1)
      by (unfold flip; destruct (decide (v = 1)); [contradiction|reflexivity]).
    rewrite Hf in Hai.
    unfold s', click_class, on_class_toggle. cbn [class_vars set_class].
    fold flip. rewrite Hai.
    destruct (decide (1 = 1)) as [_|?]; [|contradiction].
    cbn. split; [reflexivity|]. intros j. apply active_cleared. exact Hai.
Qed.

End ClickMore.

Lemma click_class_outcome_witness :
  let s := Gui.run Gui.example_env
             (Gui.init Gui.example_env ["alien"; "rock"] ["a.jpg"] ∅)
             [Gui.ClickClass 0] in
  (1 < length ["alien"; "rock"])%nat /\ ~ Gui.active s 1 /\
  Gui.selected_class_id (Gui.click_class 1 s) = Some 1 /\
  Gui.active (Gui.click_class 1 s) 1 /\ ~ Gui.active (Gui.click_class 1 s) 0.
Proof.
  intros s.
  assert (Hi : (1 < length ["alien"; "rock"])%nat) by (cbn; lia).
  assert (Ha : ~ Gui.active s 1) by (unfold Gui.active; vm_compute; discriminate).
  destruct (proj2 (click_class_outcome Gui.example_env ["alien"; "rock"]
                     ["a.jpg"] ∅ [Gui.ClickClass 0] 1 Hi) Ha) as [Hs Hact].
  split; [exact Hi|]. split; [exact Ha|]. split; [exact Hs|].
  split; [apply Hact; reflexivity|]. intros H0. apply Hact in H0. discriminate.
Defined.


(** ** The window: what reaches the label files *)

Section SavingMore.
Import Codec Text LabelFile Gui Window.

Variable E : env.

Lemma load_image_disk (i : Z) (s : state) : disk (load_image E i s) = disk s.
Proof.
  unfold load_image, draw_or_update_bbox, set_selected_class; cbn.
  repeat case_match; reflexivity.
Qed.

(** The label files after [save_label]. *)
Lemma save_label_disk (s : state) :
  disk (save_label E s) =
  match selected_class_id s, current_bbox_canvas s, current_image s with
  | Some class_id, Some (x1c, y1c, x2c, y2c), Some img_path =>
      let r := Rect
        (fl E (inject_Z (Z.min x1c x2c - offset_x s) / scale_x s))
        (fl E (inject_Z (Z.min y1c y2c - offset_y s) / scale_y s))
        (fl E (inject_Z (Z.max x1c x2c - offset_x s) / scale_x s))
        (fl E (inject_Z (Z.max y1c y2c - offset_y s) / scale_y s)) in
      yolo_save_label (tie_up E) (disk s) (label_path_for img_path) class_id
        (clamp r (orig_img s).1 (orig_img s).2) (orig_img s)
  | _, _, _ => disk s
  end.
Proof.
  unfold save_label, current_image.
  destruct (selected_class_id s) as [c|]; [|reflexivity].
  destruct (current_bbox_canvas s) as [[[[x1 y1] x2] y2]|]; [|reflexivity].
  cbn. destruct (orig_img s) as [W H].
  destruct (images s !! Z.to_nat (idx s)) as [img|]; [|reflexivity].
  cbn. case_decide; [rewrite load_image_disk|]; reflexivity.
Qed.

(** X11: a label file changes only when [save_label] runs, and then only
    the label file of the image being shown: drawing, class selection and
    navigation never write, and a save leaves every other label file as it
    was. *)
Theorem label_files_change_on_save_only (s : state) (e : event) (p : string) :
  (e = Save -> forall img, current_image s = Some img ->
               p <> label_path_for img) ->
  disk (step E s e) !! p = disk s !! p.
Proof.
  intros Hp. destruct e; cbn [step];
    try (rewrite load_image_disk; reflexivity).
  - unfold on_press, draw_or_update_bbox; reflexivity.
  - unfold on_drag. destruct (dragging s), (start_xy s); reflexivity.
  - unfold on_release. destruct (dragging s), (start_xy s); reflexivity.
  - unfold click_class, on_class_toggle; cbn. repeat case_match; reflexivity.
  - unfold on_class_toggle; cbn. repeat case_match; reflexivity.
  - reflexivity.
  - rewrite save_label_disk.
    destruct (selected_class_id s) as [c|]; [|reflexivity].
    destruct (current_bbox_canvas s) as [[[[x1 y1] x2] y2]|]; [|reflexivity].
    destruct (current_image s) as [img|] eqn:Hi; [|reflexivity].
    cbv zeta. unfold yolo_save_label. destruct (orig_img s) as [W H].
    apply lookup_insert_ne. intros Heq. exact (Hp eq_refl img eq_refl (eq_sym Heq)).
  - reflexivity.
  - unfold prev_image. case_decide; [rewrite load_image_disk|]; reflexivity.
  - unfold next_image. case_decide; [rewrite load_image_disk|]; reflexivity.
Qed.

(** X12: what [save_label] writes does not depend on which corner of the
    rectangle the drag started from: swapping the two corners, or only
    their x or only their y coordinates, gives the same label files. *)
Theorem save_label_corner_order (s : state) (x1 y1 x2 y2 : Z) :
  let saved b := disk (save_label E (set_bbox (Some b) s)) in
  saved (x2, y2, x1, y1) = saved (x1, y1, x2, y2) /\
  saved (x2, y1, x1, y2) = saved (x1, y1, x2, y2) /\
  saved (x1, y2, x2, y1) = saved (x1, y1, x2, y2).
Proof.
  intros saved. unfold saved. rewrite !save_label_disk.
  cbn [selected_class_id current_bbox_canvas set_bbox offset_x offset_y
       scale_x scale_y orig_img disk].
  change (current_image (set_bbox _ s)) with (current_image s).
  rewrite (Z.min_comm x2 x1), (Z.max_comm x2 x1),
    (Z.min_comm y2 y1), (Z.max_comm y2 y1).
  repeat split; reflexivity.
Qed.

End SavingMore.

Lemma label_files_change_on_save_only_witness :
  let s := Gui.run Gui.example_env
             (Gui.init Gui.example_env ["alien"] ["a.jpg"; "b.jpg"]
                {[ Gui.label_path_for "b.jpg" :=
                     LabelFile.ascii_file "0 0.5 0.5 0.1 0.1" ]})
             [Gui.ClickClass 0; Gui.Press 300 300; Gui.Release 400 400] in
  Gui.disk (Gui.step Gui.example_env s Gui.Save)
    !! Gui.label_path_for "b.jpg" =
  Some (LabelFile.ascii_file "0 0.5 0.5 0.1 0.1").
Proof.
  intros s.
  rewrite (label_files_change_on_save_only Gui.example_env s Gui.Save
             (Gui.label_path_for "b.jpg")).
  - vm_compute. reflexivity.
  - intros _ img Hi. vm_compute in Hi. injection Hi as <-. discriminate.
Defined.

(** ** The window: showing an image *)

Section ShowingMore.
Import Codec Text LabelFile Gui Window.

Variable E : env.

Lemma load_image_view (i : Z) (s : state) (img : string) (W H : Z) :
  images s !! Z.to_nat (clamp_idx i s) = Some img ->
  image_size E img = (W, H) ->
  let s' := load_image E i s in
  orig_img s' = (W, H) /\
  scale_x s' = fit_scale E W H /\ scale_y s' = fit_scale E W H.
Proof.
  unfold clamp_idx. intros Hi Hsz.
  unfold load_image. cbn [images idx set_idx]. rewrite Hi, Hsz.
  unfold draw_or_update_bbox, set_selected_class, fit_scale.
  destruct (yolo_load_label _ _ _ _) as [[cid [[[cx cy] w] h]]|];
    [destruct cx, cy, w, h|]; cbn; tauto.
Qed.

(** X13: when [load_image] shows an image of positive size [W] x [H], it
    records that size and uses one scale for both directions; the image is
    never enlarged: the scale is at most 1, it is positive as long as the
    two quotients [1280/W] and [800/H] are not rounded to zero, and it is 1
    for an image no larger than the canvas as long as these quotients, then
    at least 1, are not rounded below 1. *)
Theorem load_image_scale (i : Z) (s : state) (img : string) (W H : Z) :
  images s !! Z.to_nat (clamp_idx i s) = Some img ->
  image_size E img = (W, H) -> 0 < W -> 0 < H ->
  let s' := load_image E i s in
  orig_img s' = (W, H) /\ scale_y s' = scale_x s' /\
  (scale_x s' <= 1)%Q /\
  (stays_positive (fl E) (inject_Z MAX_CANVAS_W / inject_Z W) ->
   stays_positive (fl E) (inject_Z MAX_CANVAS_H / inject_Z H) ->
   (0 < scale_x s')%Q) /\
  (stays_at_least_1 (fl E) (inject_Z MAX_CANVAS_W / inject_Z W) ->
   stays_at_least_1 (fl E) (inject_Z MAX_CANVAS_H / inject_Z H) ->
   W <= MAX_CANVAS_W -> H <= MAX_CANVAS_H -> (scale_x s' == 1)%Q).
Proof.
  intros Hi Hsz HW HH s'.
  destruct (load_image_view i s img W H Hi Hsz) as (Ho & Hx & Hy).
  fold s' in Ho, Hx, Hy.
  pose proof (inject_Z_pos W HW) as HW1. pose proof (inject_Z_pos H HH) as HH1.
  split; [exact Ho|]. split; [congruence|]. rewrite Hx. unfold fit_scale.
  split; [minmax; lra|]. split.
  - intros Hpw Hph.
    assert (Ha : (0 < fl E (inject_Z MAX_CANVAS_W / inject_Z W))%Q)
      by (apply Hpw, Qlt_shift_div_l; [lra | reflexivity]).
    assert (Hb : (0 < fl E (inject_Z MAX_CANVAS_H / inject_Z H))%Q)
      by (apply Hph, Qlt_shift_div_l; [lra | reflexivity]).
    minmax; lra.
  - intros How Hoh HWs HHs.
    assert (Hws : (inject_Z W <= inject_Z MAX_CANVAS_W)%Q)
      by (rewrite <- Zle_Qle; exact HWs).
    assert (Hhs : (inject_Z H <= inject_Z MAX_CANVAS_H)%Q)
      by (rewrite <- Zle_Qle; exact HHs).
    assert (Ha : (1 <= fl E (inject_Z MAX_CANVAS_W / inject_Z W))%Q)
      by (apply How, Qle_shift_div_l; lra).
    assert (Hb : (1 <= fl E (inject_Z MAX_CANVAS_H / inject_Z H))%Q)
      by (apply Hoh, Qle_shift_div_l; lra).
    minmax; lra.
Qed.

End ShowingMore.

(** A 4000 x 3000 photograph is shown at 800/3000 of its size. *)
Lemma load_image_scale_witness :
  let E := Gui.Env (fun _ => (4000, 3000)) LabelFile.decimal_int
             LabelFile.decimal_float Text.half_even (fun x => x) in
  let s := Gui.init E ["alien"] ["a.jpg"] ∅ in
  let s' := Gui.load_image E 0 s in
  (Gui.images s !! Z.to_nat (Window.clamp_idx 0 s) = Some "a.jpg" /\
   Gui.image_size E "a.jpg" = (4000, 3000) /\ 0 < 4000 /\ 0 < 3000) /\
  Gui.orig_img s' = (4000, 3000) /\ (0 < Gui.scale_x s' <= 1)%Q.
Proof.
  intros E s s'.
  assert (Hi : Gui.images s !! Z.to_nat (Window.clamp_idx 0 s) = Some "a.jpg")
    by reflexivity.
  assert (Hz : Gui.image_size E "a.jpg" = (4000, 3000)) by reflexivity.
  destruct (load_image_scale E 0 s "a.jpg" 4000 3000 Hi Hz eq_refl eq_refl)
    as (Ho & _ & Hle & Hpos & _).
  split; [repeat split; assumption || reflexivity|].
  split; [exact Ho|]. split; [|exact Hle].
  apply Hpos; intros Hx; exact Hx.
Defined.

(** ** The window: labels found on disk *)

Section RevisitMore.
Import Codec Text LabelFile Gui Window.

Variable E : env.

Lemma load_image_no_label (i : Z) (s : state) (img : string) :
  images s !! Z.to_nat (clamp_idx i s) = Some img ->
  yolo_load_label (int_of_str E) (float_of_str E) (disk s)
    (label_path_for img) = None ->
  let s' := load_image E i s in
  current_bbox_canvas s' = None /\
  selected_class_id s' = selected_class_id s /\
  class_vars s' = class_vars s.
Proof.
  unfold clamp_idx. intros Hi Hl.
  unfold load_image. cbn [images idx set_idx]. rewrite Hi.
  destruct (image_size E img) as [W H].
  cbn [disk set_bbox set_view set_idx]. rewrite Hl. cbn. tauto.
Qed.

Lemma load_image_not_finite (i : Z) (s : state) (img : string)
    (cid : Z) (vals : pyfloat * pyfloat * pyfloat * pyfloat) :
  images s !! Z.to_nat (clamp_idx i s) = Some img ->
  yolo_load_label (int_of_str E) (float_of_str E) (disk s)
    (label_path_for img) = Some (cid, vals) ->
  some_not_finite vals ->
  let s' := load_image E i s in
  current_bbox_canvas s' = None /\
  selected_class_id s' = selected_class_id s /\
  class_vars s' = class_vars s.
Proof.
  unfold clamp_idx. intros Hi Hl Hn.
  unfold load_image. cbn [images idx set_idx]. rewrite Hi.
  destruct (image_size E img) as [W H].
  cbn [disk set_bbox set_view set_idx]. rewrite Hl.
  destruct vals as [[[cx cy] w] h].
  destruct cx, cy, w, h; try (cbn; tauto).
  destruct (Hn _ _ _ _ eq_refl).
Qed.

Lemma load_image_with_label (i : Z) (s : state) (img : string)
    (cid : Z) (cx cy w h : Q) :
  images s !! Z.to_nat (clamp_idx i s) = Some img ->
  yolo_load_label (int_of_str E) (float_of_str E) (disk s)
    (label_path_for img)
  = Some (cid, (Finite cx, Finite cy, Finite w, Finite h)) ->
  let s' := load_image E i s in
  selected_class_id s' = Some cid /\
  is_Some (current_bbox_canvas s') /\
  forall j, active s' j <->
            (j < length (class_vars s))%nat /\ cid = Z.of_nat j.
Proof.
  unfold clamp_idx. intros Hi Hl.
  unfold load_image. cbn [images idx set_idx]. rewrite Hi.
  destruct (image_size E img) as [W H].
  cbn [disk set_bbox set_view set_idx]. rewrite Hl. cbv zeta.
  match goal with |- context [set_selected_class _ ?d] => set (d0 := d) end.
  split; [reflexivity|]. split.
  - change (current_bbox_canvas (set_selected_class (Some cid) d0))
      with (current_bbox_canvas d0).
    unfold d0. rewrite draw_or_update_bbox_bbox. eexists. reflexivity.
  - intros j. rewrite active_set_selected_class.
    change (class_vars d0) with (class_vars s).
    split; intros [? ?]; split; congruence.
Qed.

(** X14: when [load_image] shows an image whose label file is missing,
    unreadable or does not parse, the rectangle is cleared and the class
    selection stays as it was; the same holds when the label parses but one
    of its four values is [inf] or [nan], since [int] then raises before
    anything is drawn; when the label parses to finite values of magnitude
    at most [10^6], a rectangle is drawn, the class id of the file becomes
    the selection, and the check box of that class, if there is one, is the
    only active one. *)
Theorem load_image_label_effect (i : Z) (s : state) (img : string) :
  images s !! Z.to_nat (clamp_idx i s) = Some img ->
  let s' := load_image E i s in
  let loaded := yolo_load_label (int_of_str E) (float_of_str E) (disk s)
                  (label_path_for img) in
  (loaded = None ->
   current_bbox_canvas s' = None /\
   selected_class_id s' = selected_class_id s /\
   class_vars s' = class_vars s) /\
  (forall cid vals, loaded = Some (cid, vals) -> some_not_finite vals ->
   current_bbox_canvas s' = None /\
   selected_class_id s' = selected_class_id s /\
   class_vars s' = class_vars s) /\
  (forall cid cx cy w h,
   loaded = Some (cid, (Finite cx, Finite cy, Finite w, Finite h)) ->
   moderate cx -> moderate cy -> moderate w -> moderate h ->
   selected_class_id s' = Some cid /\
   is_Some (current_bbox_canvas s') /\
   forall j, active s' j <->
             (j < length (class_vars s))%nat /\ cid = Z.of_nat j).
Proof.
  intros Hi s' loaded. split; [|split].
  - apply load_image_no_label, Hi.
  - intros cid vals. apply load_image_not_finite, Hi.
  - intros cid cx cy w h Hl _ _ _ _.
    exact (load_image_with_label i s img cid cx cy w h Hi Hl).
Qed.

(** X15: with label files read as decimals, an image that was just saved
    with a class and a rectangle shows that class and a rectangle again
    when it is loaded the next time. *)
Theorem saved_label_shown_again (s : state) (img : string) (c : Z)
    (b : Z * Z * Z * Z) :
  reads_decimal E -> 0 <= idx s -> current_image s = Some img ->
  selected_class_id s = Some c -> current_bbox_canvas s = Some b ->
  let s' := load_image E (idx s) (save_label E s) in
  idx s' = idx s /\ selected_class_id s' = Some c /\
  is_Some (current_bbox_canvas s').
Proof.
  intros [Hint Hfloat] H0 Hi Hc Hb s'.
  destruct (save_label_frame E s) as [Him _].
  assert (Hlt : (Z.to_nat (idx s) < length (images s))%nat)
    by (apply lookup_lt_Some in Hi; exact Hi).
  assert (Hcl : clamp_idx (idx s) (save_label E s) = idx s)
    by (unfold clamp_idx; rewrite Him; lia).
  assert (Hdisk : exists r wh,
            disk (save_label E s) =
            yolo_save_label (tie_up E) (disk s) (label_path_for img) c r wh).
  { rewrite save_label_disk, Hc, Hb, Hi. destruct b as [[[x1 y1] x2] y2].
    eexists _, _. reflexivity. }
  destruct Hdisk as (r & [W H] & Hdisk).
  destruct (yolo_load_after_save (tie_up E) (disk s) (label_path_for img)
              c r W H)
    as (cx & cy & w & h & Hload & _).
  destruct (load_image_with_label (idx s) (save_label E s) img c cx cy w h)
    as (Hs1 & Hs2 & _).
  - rewrite Hcl, Him. exact Hi.
  - rewrite Hint, Hfloat, Hdisk. exact Hload.
  - unfold s'. split; [|split; assumption].
    destruct (load_image_frame E (idx s) (save_label E s)) as (_ & _ & ->).
    exact Hcl.
Qed.

End RevisitMore.

(** A label for class 1, and a label whose width is not a number. *)
Lemma load_image_label_effect_witness :
  let E := Gui.Env (fun _ => (1000, 500)) LabelFile.decimal_int
             (fun t => if decide (t = Text.text_of_string "nan")
                       then Some LabelFile.NaN
                       else LabelFile.decimal_float t)
             Text.half_even (fun x => x) in
  let s := Gui.init E ["alien"; "rock"] ["a.jpg"; "b.jpg"; "c.jpg"]
             {[ Gui.label_path_for "b.jpg" :=
                  LabelFile.ascii_file "1 0.5 0.5 0.2 0.2";
                Gui.label_path_for "c.jpg" :=
                  LabelFile.ascii_file "0 0.5 0.5 nan 0.2" ]} in
  (Gui.images s !! Z.to_nat (Window.clamp_idx 1 s) = Some "b.jpg" /\
   Gui.images s !! Z.to_nat (Window.clamp_idx 2 s) = Some "c.jpg" /\
   Window.moderate (5 # 10) /\ Window.moderate (2 # 10)) /\
  (Gui.selected_class_id (Gui.load_image E 1 s) = Some 1 /\
   Gui.active (Gui.load_image E 1 s) 1) /\
  (Gui.current_bbox_canvas (Gui.load_image E 2 (Gui.load_image E 1 s)) = None /\
   Gui.selected_class_id (Gui.load_image E 2 (Gui.load_image E 1 s)) = Some 1).
Proof.
  intros E s.
  assert (Hb : Gui.images s !! Z.to_nat (Window.clamp_idx 1 s) = Some "b.jpg")
    by reflexivity.
  assert (Hc : Gui.images s !! Z.to_nat (Window.clamp_idx 2 s) = Some "c.jpg")
    by reflexivity.
  assert (M5 : Window.moderate (5 # 10)) by (vm_compute; discriminate).
  assert (M2 : Window.moderate (2 # 10)) by (vm_compute; discriminate).
  split; [repeat split; assumption|]. split.
  - destruct (proj2 (proj2 (load_image_label_effect E 1 s "b.jpg" Hb))
                1 (5 # 10)%Q (5 # 10)%Q (2 # 10)%Q (2 # 10)%Q) as (Hs & _ & Ha);
      [vm_compute; reflexivity | assumption..|].
    split; [exact Hs|]. apply Ha. split; [vm_compute; lia | reflexivity].
  - destruct (proj1 (proj2 (load_image_label_effect E 2 (Gui.load_image E 1 s)
                              "c.jpg" eq_refl))
                0 (LabelFile.Finite (5 # 10), LabelFile.Finite (5 # 10),
                   LabelFile.NaN, LabelFile.Finite (2 # 10)))
      as (Hbox & Hsel & _).
    + vm_compute. reflexivity.
    + intros cx cy w h [=].
    + split; [exact Hbox|]. rewrite Hsel. vm_compute. reflexivity.
Defined.

Lemma saved_label_shown_again_witness :
  let s := Gui.run Gui.example_env
             (Gui.init Gui.example_env ["alien"; "rock"] ["a.jpg"; "b.jpg"] ∅)
             [Gui.ClickClass 1; Gui.Press 300 300; Gui.Release 500 400] in
  let s' := Gui.load_image Gui.example_env (Gui.idx s)
              (Gui.save_label Gui.example_env s) in
  (Window.reads_decimal Gui.example_env /\ 0 <= Gui.idx s /\
   Window.current_image s = Some "a.jpg") /\
  Gui.idx s' = 0 /\ Gui.selected_class_id s' = Some 1 /\
  is_Some (Gui.current_bbox_canvas s').
Proof.
  intros s s'.
  assert (Hr : Window.reads_decimal Gui.example_env) by (split; reflexivity).
  assert (H0 : 0 <= Gui.idx s) by (vm_compute; discriminate).
  assert (Hi : Window.current_image s = Some "a.jpg") by reflexivity.
  split; [repeat split; assumption|].
  exact (saved_label_shown_again Gui.example_env s "a.jpg" 1
           (300, 300, 500, 400) Hr H0 Hi eq_refl eq_refl).
Defined.

(** ** Codec: clamping twice *)

Section ClampMore.
Import Codec.

(** X16: for positive [W], [H] the clamp of [yolo_save_label] changes
    nothing when applied a second time and keeps ordered corners ordered;
    so on a rectangle that [save_label] has already ordered and clamped,
    [yolo_save_label] neither moves nor swaps a corner. *)
Theorem clamp_twice (r : rect) (W H : Z) :
  0 < W -> 0 < H ->
  rect_eq (clamp (clamp r W H) W H) (clamp r W H) /\
  ((rx1 r <= rx2 r)%Q -> (ry1 r <= ry2 r)%Q ->
   (rx1 (clamp r W H) <= rx2 (clamp r W H))%Q /\
   (ry1 (clamp r W H) <= ry2 (clamp r W H))%Q /\
   box_eq (normalize (clamp r W H) W H) (to_box (clamp r W H) W H)).
Proof.
  intros HW HH.
  pose proof (clamp_ranges W H HW HH r) as (Hx1 & Hx2 & Hy1 & Hy2).
  pose proof (inject_Z_pred W) as HpW. pose proof (inject_Z_pred H) as HpH.
  pose proof (inject_Z_pos W HW) as HW1. pose proof (inject_Z_pos H HH) as HH1.
  split.
  - revert Hx1 Hx2 Hy1 Hy2. generalize (clamp r W H) as c.
    intros [a1 b1 a2 b2]; cbn [rx1 ry1 rx2 ry2]. intros.
    unfold rect_eq, clamp; cbn [rx1 ry1 rx2 ry2].
    repeat split; minmax; lra.
  - intros Hx Hy.
    assert (Hox : (rx1 (clamp r W H) <= rx2 (clamp r W H))%Q)
      by (clear Hx1 Hx2 Hy1 Hy2; unfold clamp; cbn [rx1 rx2]; minmax; lra).
    assert (Hoy : (ry1 (clamp r W H) <= ry2 (clamp r W H))%Q)
      by (clear Hx1 Hx2 Hy1 Hy2; unfold clamp; cbn [ry1 ry2]; minmax; lra).
    split; [exact Hox|]. split; [exact Hoy|].
    apply normalize_fixed; try assumption.
    + unfold ordered_in_image. lra.
    + unfold within_clamp. lra.
    + unfold rect_eq. repeat split; reflexivity.
Qed.

Lemma clamp_twice_witness :
  let r := Rect (-5) 2 (25 # 2) 40 in
  (0 < 10 /\ 0 < 10 /\ (rx1 r <= rx2 r)%Q /\ (ry1 r <= ry2 r)%Q) /\
  rect_eq (clamp (clamp r 10 10) 10 10) (clamp r 10 10) /\
  box_eq (normalize (clamp r 10 10) 10 10) (to_box (clamp r 10 10) 10 10).
Proof.
  intros r.
  assert (Hx : (rx1 r <= rx2 r)%Q) by (vm_compute; discriminate).
  assert (Hy : (ry1 r <= ry2 r)%Q) by (vm_compute; discriminate).
  destruct (clamp_twice r 10 10 eq_refl eq_refl) as [Hc Ho].
  destruct (Ho Hx Hy) as (_ & _ & Hb).
  split; [repeat split; assumption || reflexivity|].
  split; [exact Hc | exact Hb].
Defined.

End ClampMore.
